(** * TaskMasterTS: the task reducer, the task manager and the view projection

    A shallow embedding of [src/components/TodoApp.tsx]: the [Task] and
    [TaskState] records, the [TaskManager] class with its [taskMap], the
    [taskReducer] function, [TaskFactory.createTask], the handlers that
    dispatch actions, and [TaskManager.filterTasks].

    Conventions of the embedding.
    - A JavaScript string is the list of its UTF-16 code units.
    - A [Date] is its time value, the number of milliseconds since the
      epoch, an integer.
    - [taskManager] is a module-level singleton that the reducer reads and
      writes.  Its [taskMap] is threaded explicitly: every function that
      touches it takes the map and returns the new map.
    - [crypto.randomUUID()] and [new Date()] are read inside the reducer.
      The values they return at a call are two extra arguments of
      [taskReducer]. *)

From Stdlib Require Import ZArith List Permutation Sorted String Ascii Lia.
From stdpp Require Import base option list gmap.
Import ListNotations.

Local Open Scope Z_scope.

(** ** Strings *)

Abbreviation jsstring := (list N).

(** The code units of an ASCII literal. *)
Fixpoint js (s : string) : jsstring :=
  match s with
  | EmptyString => []
  | String c r => N_of_ascii c :: js r
  end.

(** ECMAScript [WhiteSpace] and [LineTerminator] code points, the characters
    that [String.prototype.trim] strips.  All of them lie in the basic
    plane, so each is one code unit. *)
Definition isWhiteSpace (c : N) : bool :=
  (N.eqb c 9 || N.eqb c 10 || N.eqb c 11 || N.eqb c 12 || N.eqb c 13
   || N.eqb c 32 || N.eqb c 160 || N.eqb c 5760
   || (N.leb 8192 c && N.leb c 8202)
   || N.eqb c 8232 || N.eqb c 8233 || N.eqb c 8239 || N.eqb c 8287
   || N.eqb c 12288 || N.eqb c 65279)%bool.

Fixpoint trimStart (s : jsstring) : jsstring :=
  match s with
  | [] => []
  | c :: r => if isWhiteSpace c then trimStart r else s
  end.

Definition trimEnd (s : jsstring) : jsstring := rev (trimStart (rev s)).

(** [String.prototype.trim]. *)
Definition trim (s : jsstring) : jsstring := trimEnd (trimStart s).

(** A string is truthy when it is not empty. *)
Definition truthy (s : jsstring) : bool :=
  match s with [] => false | _ :: _ => true end.

Fixpoint startsWith (s p : jsstring) : bool :=
  match p, s with
  | [], _ => true
  | _ :: _, [] => false
  | a :: p', b :: s' => N.eqb a b && startsWith s' p'
  end.

(** [String.prototype.includes] with the default position 0: some suffix
    of [s] starts with [p]. *)
Fixpoint includes (s p : jsstring) : bool :=
  startsWith s p ||
  match s with
  | [] => false
  | _ :: s' => includes s' p
  end.

(** ** Data model *)

Inductive Priority := low | medium | high.

(** [TaskState['filter']]. *)
Inductive StatusFilter := all | active | completed.

(** [TaskState['selectedPriority']]: the string 'all' or a priority. *)
Inductive PriorityFilter := anyPriority | only (p : Priority).

Global Instance Priority_eq_dec : EqDecision Priority.
Proof. solve_decision. Defined.

Module Task.
Record t := mk {
  id : jsstring;
  title : jsstring;
  description : jsstring;
  completed : bool;
  priority : Priority;
  createdAt : Z;
  dueDate : option Z;
  tags : list jsstring
}.
End Task.

(** [Omit<Task, 'id' | 'createdAt'>], the payload of ADD_TASK. *)
Module NewTask.
Record t := mk {
  title : jsstring;
  description : jsstring;
  completed : bool;
  priority : Priority;
  dueDate : option Z;
  tags : list jsstring
}.
End NewTask.

(** [Partial<Task>]: each property is absent ([None]) or present with a
    value of the property's type.  [dueDate] is optional in [Task] itself,
    so a present [dueDate] may hold [undefined]. *)
Module Updates.
Record t := mk {
  id : option jsstring;
  title : option jsstring;
  description : option jsstring;
  completed : option bool;
  priority : option Priority;
  createdAt : option Z;
  dueDate : option (option Z);
  tags : option (list jsstring)
}.
End Updates.

Module TaskState.
Record t := mk {
  tasks : list Task.t;
  filter : StatusFilter;
  searchQuery : jsstring;
  selectedPriority : PriorityFilter
}.
End TaskState.

Inductive TaskAction :=
| ADD_TASK (payload : NewTask.t)
| UPDATE_TASK (id : jsstring) (updates : Updates.t)
| DELETE_TASK (payload : jsstring)
| TOGGLE_TASK (payload : jsstring)
| SET_FILTER (payload : StatusFilter)
| SET_SEARCH (payload : jsstring)
| SET_PRIORITY_FILTER (payload : PriorityFilter)
| CLEAR_COMPLETED.

(** Object spread [{ ...task, ...updates }]: every property present in
    [updates] overwrites the one of [task]. *)
Definition spread (task : Task.t) (u : Updates.t) : Task.t :=
  Task.mk
    (default (Task.id task) (Updates.id u))
    (default (Task.title task) (Updates.title u))
    (default (Task.description task) (Updates.description u))
    (default (Task.completed task) (Updates.completed u))
    (default (Task.priority task) (Updates.priority u))
    (default (Task.createdAt task) (Updates.createdAt u))
    (default (Task.dueDate task) (Updates.dueDate u))
    (default (Task.tags task) (Updates.tags u)).

(** ** TaskManager: the [taskMap] and its single-item operations *)

Module TaskManager.
Abbreviation taskMap := (gmap jsstring Task.t).

Definition priorityOrder (p : Priority) : Z :=
  match p with high => 3 | medium => 2 | low => 1 end.

Definition addTask (m : taskMap) (task : Task.t) : taskMap :=
  <[Task.id task := task]> m.

(** Returns the new map and the updated task, [None] for [null]. *)
Definition updateTask (m : taskMap) (id : jsstring) (updates : Updates.t)
  : taskMap * option Task.t :=
  match m !! id with
  | None => (m, None)
  | Some task =>
      let updatedTask := spread task updates in
      (<[id := updatedTask]> m, Some updatedTask)
  end.

(** Returns the new map and whether an entry existed. *)
Definition deleteTask (m : taskMap) (id : jsstring) : taskMap * bool :=
  (delete id m, bool_decide (is_Some (m !! id))).
End TaskManager.

(** ** The reducer *)

Definition withTasks (state : TaskState.t) (ts : list Task.t) : TaskState.t :=
  TaskState.mk ts (TaskState.filter state) (TaskState.searchQuery state)
    (TaskState.selectedPriority state).

Definition hasId (id : jsstring) (task : Task.t) : bool :=
  bool_decide (Task.id task = id).

(** [state.tasks.map(task => task.id === id ? updatedTask : task)]. *)
Definition replaceById (id : jsstring) (updatedTask : Task.t)
  (ts : list Task.t) : list Task.t :=
  List.map (fun task => if hasId id task then updatedTask else task) ts.

(** [!state.tasks.find(t => t.id === id)?.completed]: the negation of the
    flag of the first task with that identifier, [true] when there is none
    ([!undefined]). *)
Definition toggledFlag (id : jsstring) (ts : list Task.t) : bool :=
  match List.find (hasId id) ts with
  | Some t => negb (Task.completed t)
  | None => true
  end.

(** [taskReducer uuid now m state action]: [uuid] and [now] are what
    [crypto.randomUUID()] and [new Date()] return in the ADD_TASK branch,
    [m] is the [taskMap] of the [taskManager] singleton before the call.
    The result is the [taskMap] after the call and the returned state. *)
Definition taskReducer (uuid : jsstring) (now : Z) (m : TaskManager.taskMap)
  (state : TaskState.t) (action : TaskAction)
  : TaskManager.taskMap * TaskState.t :=
  match action with
  | ADD_TASK payload =>
      let newTask :=
        Task.mk uuid (NewTask.title payload) (NewTask.description payload)
          (NewTask.completed payload) (NewTask.priority payload) now
          (NewTask.dueDate payload) (NewTask.tags payload) in
      (TaskManager.addTask m newTask,
       withTasks state (TaskState.tasks state ++ [newTask]))
  | UPDATE_TASK id updates =>
      match TaskManager.updateTask m id updates with
      | (m', None) => (m', state)
      | (m', Some updatedTask) =>
          (m', withTasks state (replaceById id updatedTask (TaskState.tasks state)))
      end
  | DELETE_TASK id =>
      (fst (TaskManager.deleteTask m id),
       withTasks state
         (List.filter (fun task => negb (hasId id task)) (TaskState.tasks state)))
  | TOGGLE_TASK id =>
      let flag := toggledFlag id (TaskState.tasks state) in
      let updates :=
        Updates.mk None None None (Some flag) None None None None in
      match TaskManager.updateTask m id updates with
      | (m', None) => (m', state)
      | (m', Some updatedTask) =>
          (m', withTasks state (replaceById id updatedTask (TaskState.tasks state)))
      end
  | SET_FILTER f =>
      (m, TaskState.mk (TaskState.tasks state) f (TaskState.searchQuery state)
            (TaskState.selectedPriority state))
  | SET_SEARCH q =>
      (m, TaskState.mk (TaskState.tasks state) (TaskState.filter state) q
            (TaskState.selectedPriority state))
  | SET_PRIORITY_FILTER p =>
      (m, TaskState.mk (TaskState.tasks state) (TaskState.filter state)
            (TaskState.searchQuery state) p)
  | CLEAR_COMPLETED =>
      let activeTasks :=
        List.filter (fun task => negb (Task.completed task)) (TaskState.tasks state) in
      (m, withTasks state activeTasks)
  end.

(** The state [useReducer] starts from, with the empty [taskMap]. *)
Definition initialState : TaskState.t :=
  TaskState.mk [] all [] anyPriority.

Definition initialMap : TaskManager.taskMap := ∅.

(** A call of the reducer: the values the identifier generator and the
    clock return during the call, and the action. *)
Record Call := mkCall {
  call_uuid : jsstring;
  call_now : Z;
  call_action : TaskAction
}.

Definition step (ms : TaskManager.taskMap * TaskState.t) (c : Call)
  : TaskManager.taskMap * TaskState.t :=
  taskReducer (call_uuid c) (call_now c) (fst ms) (snd ms) (call_action c).

(** The calls of a list, applied one after the other. *)
Definition run (ms : TaskManager.taskMap * TaskState.t) (cs : list Call)
  : TaskManager.taskMap * TaskState.t :=
  fold_left step cs ms.

(** ** The caller-facing layer: factory and handlers *)

Module TaskFactory.
(** [createTask(title, description, priority, dueDate, tags)]. *)
Definition createTask (title description : jsstring) (priority : Priority)
  (dueDate : option Z) (tags : list jsstring) : NewTask.t :=
  NewTask.mk (trim title) (trim description) false priority dueDate tags.
End TaskFactory.

(** What the user interface can do.  [Submit] is [TaskForm.handleSubmit]
    with the form's fields, [Save] is [TaskItem.handleSave] on the task
    with the given identifier, the others are the handlers of [TodoApp]. *)
Inductive UserEvent :=
| Submit (title description : jsstring) (priority : Priority)
| Save (id editTitle editDescription : jsstring)
| Toggle (id : jsstring)
| Delete (id : jsstring)
| FilterChange (f : StatusFilter)
| SearchChange (q : jsstring)
| PriorityChange (p : PriorityFilter)
| ClearCompleted.

(** The action a user event dispatches, [None] when the handler's guard
    ([if (title.trim())], [if (editTitle.trim())]) stops it. *)
Definition dispatched (e : UserEvent) : option TaskAction :=
  match e with
  | Submit title description priority =>
      if truthy (trim title)
      then Some (ADD_TASK (TaskFactory.createTask title description priority None []))
      else None
  | Save id editTitle editDescription =>
      if truthy (trim editTitle)
      then Some (UPDATE_TASK id
                   (Updates.mk None (Some (trim editTitle))
                      (Some (trim editDescription)) None None None None None))
      else None
  | Toggle id => Some (TOGGLE_TASK id)
  | Delete id => Some (DELETE_TASK id)
  | FilterChange f => Some (SET_FILTER f)
  | SearchChange q => Some (SET_SEARCH q)
  | PriorityChange p => Some (SET_PRIORITY_FILTER p)
  | ClearCompleted => Some CLEAR_COMPLETED
  end.

Definition ids (ts : list Task.t) : list jsstring := List.map Task.id ts.

(** The states the application reaches: from the initial one, by actions
    that user events dispatch, every generated identifier being different
    from the identifiers of the tasks in the list. *)
Inductive reachable : TaskManager.taskMap -> TaskState.t -> Prop :=
| reachable_init : reachable initialMap initialState
| reachable_step m s e a uuid now :
    reachable m s ->
    dispatched e = Some a ->
    ~ In uuid (ids (TaskState.tasks s)) ->
    reachable (fst (taskReducer uuid now m s a)) (snd (taskReducer uuid now m s a)).

(** ** The view projection *)

(** [Array.prototype.sort(comparefn)].  The sort is stable, and for a
    consistent comparator its result is the one list that is sorted and
    keeps equal elements in their order, whatever the algorithm.  The
    algorithm here inserts each element, from the last to the first, in
    front of the first element it does not have to follow. *)
Section Sort.
Context {A : Type} (comparefn : A -> A -> Z).

Fixpoint insertSorted (x : A) (l : list A) : list A :=
  match l with
  | [] => [x]
  | y :: r =>
      if comparefn x y <=? 0 then x :: l else y :: insertSorted x r
  end.

Definition sortBy (l : list A) : list A := foldr insertSorted [] l.

(** [x] and [y] compare as equal: neither has to follow the other. *)
Definition sameClass (x y : A) : bool :=
  (comparefn x y <=? 0) && (comparefn y x <=? 0).
End Sort.

Section View.
(** [String.prototype.toLowerCase], the Unicode lower-case mapping of
    the host, is a parameter. *)
Variable toLowerCase : jsstring -> jsstring.

(** The callback of [filter] in [filterTasks], with its early returns. *)
Definition keeps (filter : StatusFilter) (searchQuery : jsstring)
  (priorityFilter : PriorityFilter) (task : Task.t) : bool :=
  if (match filter with active => true | _ => false end) && Task.completed task
  then false
  else if (match filter with completed => true | _ => false end)
          && negb (Task.completed task)
  then false
  else if truthy searchQuery
          && negb (includes (toLowerCase (Task.title task)) (toLowerCase searchQuery))
          && negb (includes (toLowerCase (Task.description task))
                     (toLowerCase searchQuery))
  then false
  else if (match priorityFilter with
           | anyPriority => false
           | only p => negb (bool_decide (Task.priority task = p))
           end)
  then false
  else true.

(** The comparator of [sort] in [filterTasks]. *)
Definition compareTasks (a b : Task.t) : Z :=
  let priorityDiff :=
    TaskManager.priorityOrder (Task.priority b)
    - TaskManager.priorityOrder (Task.priority a) in
  if negb (priorityDiff =? 0) then priorityDiff
  else Task.createdAt b - Task.createdAt a.

Definition filterTasks (tasks : list Task.t) (filter : StatusFilter)
  (searchQuery : jsstring) (priorityFilter : PriorityFilter) : list Task.t :=
  sortBy compareTasks
    (List.filter (keeps filter searchQuery priorityFilter) tasks).

(** [useTasks]: the filtered list of a state. *)
Definition filteredTasks (state : TaskState.t) : list Task.t :=
  filterTasks (TaskState.tasks state) (TaskState.filter state)
    (TaskState.searchQuery state) (TaskState.selectedPriority state).
End View.

(** The lower-case mapping on the ASCII range, where [toLowerCase] maps
    the letters A..Z to a..z and leaves the rest; used in examples. *)
Definition asciiLower (s : jsstring) : jsstring :=
  List.map (fun c => if N.leb 65 c && N.leb c 90 then (c + 32)%N else c) s.

(** ** Vocabulary of the properties *)

(** No white space in front. *)
Definition leadFree (s : jsstring) : Prop :=
  match s with
  | [] => True
  | c :: _ => isWhiteSpace c = false
  end.

Definition rank (t : Task.t) : Z := TaskManager.priorityOrder (Task.priority t).

(** [a] may stand before [b]: higher rank first, then later creation. *)
Definition precedes (a b : Task.t) : Prop :=
  rank a > rank b \/ (rank a = rank b /\ Task.createdAt a >= Task.createdAt b).

(** Equal (priority, timestamp) pairs. *)
Definition sameKey (a b : Task.t) : bool :=
  (rank a =? rank b) && (Task.createdAt a =? Task.createdAt b).

(** The three criteria in the words of the specification. *)
Definition statusOk (f : StatusFilter) (t : Task.t) : Prop :=
  match f with
  | all => True
  | active => Task.completed t = false
  | completed => Task.completed t = true
  end.

Definition substring (needle hay : jsstring) : Prop :=
  exists pre post, hay = pre ++ needle ++ post.

Definition priorityOk (p : PriorityFilter) (t : Task.t) : Prop :=
  match p with
  | anyPriority => True
  | only x => Task.priority t = x
  end.

Section Criteria.
Variable toLowerCase : jsstring -> jsstring.

(** [needle] occurs in [hay] when letter case is ignored. *)
Definition substringNoCase (needle hay : jsstring) : Prop :=
  substring (toLowerCase needle) (toLowerCase hay).

Definition searchOk (q : jsstring) (t : Task.t) : Prop :=
  q = [] \/ substringNoCase q (Task.title t)
  \/ substringNoCase q (Task.description t).
End Criteria.

Definition toggleUpdates (id : jsstring) (ts : list Task.t) : Updates.t :=
  Updates.mk None None None (Some (toggledFlag id ts)) None None None None.

(** The task with its completion flag negated. *)
Definition flipped (t : Task.t) : Task.t :=
  Task.mk (Task.id t) (Task.title t) (Task.description t)
    (negb (Task.completed t)) (Task.priority t) (Task.createdAt t)
    (Task.dueDate t) (Task.tags t).

(** The task manager holds every task of the list under its identifier. *)
Definition synced (m : TaskManager.taskMap) (s : TaskState.t) : Prop :=
  forall t, In t (TaskState.tasks s) -> m !! Task.id t = Some t.

Definition titled (t : Task.t) : Prop := trim (Task.title t) <> [].

Definition wellFormed (m : TaskManager.taskMap) (s : TaskState.t) : Prop :=
  synced m s
  /\ NoDup (ids (TaskState.tasks s))
  /\ Forall titled (TaskState.tasks s).

(** The identifier and the creation time of each task, in list order. *)
Definition identities (ts : list Task.t) : list (jsstring * Z) :=
  List.map (fun t => (Task.id t, Task.createdAt t)) ts.

(** An update that names neither [id] nor [createdAt]. *)
Definition keepsIdentity (u : Updates.t) : Prop :=
  Updates.id u = None /\ Updates.createdAt u = None.

(** How a call changes the identities: an add puts the new one at the
    end, a delete or a clear drops some, every other action keeps all. *)
Definition identityStep (uuid : jsstring) (now : Z) (a : TaskAction)
  (before after : list (jsstring * Z)) : Prop :=
  match a with
  | ADD_TASK _ => after = before ++ [(uuid, now)]
  | DELETE_TASK _ | CLEAR_COMPLETED => after `sublist_of` before
  | _ => after = before
  end.

(** The identifier an action carries. *)
Definition actionId (a : TaskAction) : option jsstring :=
  match a with
  | UPDATE_TASK id _ | DELETE_TASK id | TOGGLE_TASK id => Some id
  | _ => None
  end.

Definition isAdd (a : TaskAction) : bool :=
  match a with ADD_TASK _ => true | _ => false end.

(** The key of the task manager's map that a call writes. *)
Definition writtenKey (uuid : jsstring) (a : TaskAction) : option jsstring :=
  match a with
  | ADD_TASK _ => Some uuid
  | _ => actionId a
  end.

(** The identifiers stored in the map are those of the tasks in the list. *)
Definition idsInSync (m : TaskManager.taskMap) (s : TaskState.t) : Prop :=
  forall k, is_Some (m !! k) <-> In k (ids (TaskState.tasks s)).

(** ** Concrete runs *)

Definition reportPayload : NewTask.t :=
  TaskFactory.createTask (js "  Write Report ") [] high None [].

Definition meetingPayload : NewTask.t :=
  TaskFactory.createTask (js "Meeting") (js "discuss budget") low None [].

Definition callReport : Call := mkCall (js "u1") 100 (ADD_TASK reportPayload).

(** The task manager and the state after one add. *)
Definition oneTask : TaskManager.taskMap * TaskState.t :=
  run (initialMap, initialState) [callReport].

(** Add a task, complete it, clear the completed tasks. *)
Definition clearRun : list Call :=
  [ callReport;
    mkCall (js "u2") 150 (TOGGLE_TASK (js "u1"));
    mkCall (js "u3") 160 CLEAR_COMPLETED ].

(** An update that names every identity field and blanks the title. *)
Definition renameUpdates : Updates.t :=
  Updates.mk (Some (js "zz")) (Some []) None None None (Some 0) None None.

(** An update that names [id] only. *)
Definition setId (id : jsstring) : Updates.t :=
  Updates.mk (Some id) None None None None None None None.

(** Add A and rename it zz, add B and rename it to A's first identifier. *)
Definition renameRun : list Call :=
  [ mkCall (js "u1") 100 (ADD_TASK (NewTask.mk (js "A") [] false low None []));
    mkCall [] 0 (UPDATE_TASK (js "u1") (setId (js "zz")));
    mkCall (js "u2") 200 (ADD_TASK (NewTask.mk (js "B") [] false high None []));
    mkCall [] 0 (UPDATE_TASK (js "u2") (setId (js "u1"))) ].

(** Tasks of the scenarios of the specification. *)
Definition sampleTask (id title description : string) (completed : bool)
  (priority : Priority) (createdAt : Z) : Task.t :=
  Task.mk (js id) (js title) (js description) completed priority createdAt
    None [].

Definition taskA : Task.t := sampleTask "a" "A" EmptyString false high 10.
Definition taskB : Task.t := sampleTask "b" "B" EmptyString true low 20.
Definition taskLow : Task.t := sampleTask "l" "low" EmptyString false low 5.
Definition taskHigh : Task.t := sampleTask "h" "high" EmptyString false high 5.
Definition taskMedium : Task.t := sampleTask "m" "medium" EmptyString false medium 5.
Definition taskReport : Task.t := sampleTask "r" "Write Report" EmptyString false medium 1.
Definition taskMeeting : Task.t :=
  sampleTask "g" "Meeting" "discuss budget" false medium 2.

(** ** The aggregate counts and what the page shows *)

(** The [stats] object of [useTasks]. *)
Module Stats.
Record t := mk {
  total : nat;
  completed : nat;
  active : nat;
  highPriority : nat
}.
End Stats.

Definition stats (state : TaskState.t) : Stats.t :=
  Stats.mk
    (length (TaskState.tasks state))
    (length (List.filter (fun t => Task.completed t) (TaskState.tasks state)))
    (length (List.filter (fun t => negb (Task.completed t)) (TaskState.tasks state)))
    (length (List.filter
               (fun t => bool_decide (Task.priority t = high)
                         && negb (Task.completed t))
               (TaskState.tasks state))).

(** [stats.completed > 0], the condition under which [TodoApp] renders the
    button that dispatches CLEAR_COMPLETED. *)
Definition showClearCompleted (st : Stats.t) : bool :=
  (0 <? Stats.completed st)%nat.

(** What [TodoApp] renders in the task list: one of the two notices when
    [filteredTasks] is empty, the items otherwise. *)
Inductive TaskListView :=
| NoTasksYet
| NoTasksMatch
| Items (l : list Task.t).

Definition taskListView (toLowerCase : jsstring -> jsstring)
  (state : TaskState.t) : TaskListView :=
  match filteredTasks toLowerCase state with
  | [] => match TaskState.tasks state with
          | [] => NoTasksYet
          | _ :: _ => NoTasksMatch
          end
  | t :: l => Items (t :: l)
  end.

(** ** More vocabulary *)

Definition whiteSpaces (s : jsstring) : Prop :=
  Forall (fun c => isWhiteSpace c = true) s.

(** No white space at the end. *)
Definition trailFree (s : jsstring) : Prop := leadFree (rev s).

(** [{ ...u1, ...u2 }] on two update objects: a property of [u2] wins. *)
Definition laterOf {A} (a b : option A) : option A :=
  match b with Some _ => b | None => a end.

Definition mergeUpdates (u1 u2 : Updates.t) : Updates.t :=
  Updates.mk
    (laterOf (Updates.id u1) (Updates.id u2))
    (laterOf (Updates.title u1) (Updates.title u2))
    (laterOf (Updates.description u1) (Updates.description u2))
    (laterOf (Updates.completed u1) (Updates.completed u2))
    (laterOf (Updates.priority u1) (Updates.priority u2))
    (laterOf (Updates.createdAt u1) (Updates.createdAt u2))
    (laterOf (Updates.dueDate u1) (Updates.dueDate u2))
    (laterOf (Updates.tags u1) (Updates.tags u2)).

(** The task after [handleSave] with the given edit fields. *)
Definition edited (editTitle editDescription : jsstring) (t : Task.t) : Task.t :=
  Task.mk (Task.id t) (trim editTitle) (trim editDescription)
    (Task.completed t) (Task.priority t) (Task.createdAt t)
    (Task.dueDate t) (Task.tags t).

(** Every entry of the map is stored under the identifier of its task,
    and an entry whose identifier is not in the list is a completed task. *)
Definition staleCompleted (m : TaskManager.taskMap) (s : TaskState.t) : Prop :=
  forall k t, m !! k = Some t ->
    Task.id t = k
    /\ (In k (ids (TaskState.tasks s)) \/ Task.completed t = true).

(** The pair that [compareTasks] orders by. *)
Definition sortKey (t : Task.t) : Z * Z := (rank t, Task.createdAt t).

(** * Properties *)

(** ** Strings *)

Lemma trimStart_suffix s : exists ws, s = ws ++ trimStart s.
Proof.
  induction s as [|c r [ws IH]]; simpl.
  - now exists [].
  - destruct (isWhiteSpace c).
    + exists (c :: ws). simpl. now f_equal.
    + now exists [].
Qed.

Lemma trimStart_leadFree s : leadFree (trimStart s).
Proof.
  induction s as [|c r IH]; simpl; [easy|].
  destruct (isWhiteSpace c) eqn:E; [exact IH | exact E].
Qed.

Lemma trimStart_fixed s : leadFree s -> trimStart s = s.
Proof. destruct s as [|c r]; simpl; [easy|]. now intros ->. Qed.

Lemma trimStart_idem s : trimStart (trimStart s) = trimStart s.
Proof. apply trimStart_fixed, trimStart_leadFree. Qed.

Lemma trimEnd_prefix s : exists ws, s = trimEnd s ++ ws.
Proof.
  unfold trimEnd. destruct (trimStart_suffix (rev s)) as [ws E].
  exists (rev ws). rewrite <- rev_app_distr, <- E. now rewrite rev_involutive.
Qed.

Lemma trimEnd_leadFree s : leadFree s -> leadFree (trimEnd s).
Proof.
  intros H. destruct (trimEnd_prefix s) as [ws E].
  destruct (trimEnd s) as [|c r]; [easy|].
  rewrite E in H. exact H.
Qed.

Lemma trimEnd_idem s : trimEnd (trimEnd s) = trimEnd s.
Proof. unfold trimEnd. now rewrite rev_involutive, trimStart_idem. Qed.

Lemma trim_idem s : trim (trim s) = trim s.
Proof.
  unfold trim.
  rewrite (trimStart_fixed (trimEnd (trimStart s))).
  - apply trimEnd_idem.
  - apply trimEnd_leadFree, trimStart_leadFree.
Qed.

Lemma truthy_true s : truthy s = true <-> s <> [].
Proof. destruct s; simpl; split; congruence. Qed.

Lemma startsWith_spec p : forall s,
  startsWith s p = true <-> exists post, s = p ++ post.
Proof.
  induction p as [|a p IH]; intros s; simpl.
  - split; [intros _; now exists s | now destruct s].
  - destruct s as [|b s].
    + split; [discriminate | intros [post E]; discriminate].
    + simpl. rewrite andb_true_iff, N.eqb_eq, IH. split.
      * intros [-> [post ->]]. now exists post.
      * intros [post E]. injection E as -> ->. split; [easy | now exists post].
Qed.

(** [includes] decides the substring relation. *)
Lemma includes_spec p : forall s,
  includes s p = true <-> exists pre post, s = pre ++ p ++ post.
Proof.
  induction s as [|b s IH].
  - change (includes [] p) with (startsWith [] p || false).
    rewrite orb_false_r, startsWith_spec. split.
    + intros [post E]. now exists [], post.
    + intros [pre [post E]]. destruct pre; [now exists post | discriminate].
  - change (includes (b :: s) p) with (startsWith (b :: s) p || includes s p).
    rewrite orb_true_iff, startsWith_spec, IH. split.
    + intros [[post E] | [pre [post E]]].
      * now exists [], post.
      * exists (b :: pre), post. simpl. now f_equal.
    + intros [pre [post E]]. destruct pre as [|c pre].
      * left. now exists post.
      * right. injection E as -> E. now exists pre, post.
Qed.

(** ** Sorting *)

Section SortFacts.
Context {A : Type} (comparefn : A -> A -> Z).

Lemma insertSorted_perm x l : Permutation (insertSorted comparefn x l) (x :: l).
Proof.
  induction l as [|y r IH]; simpl; [reflexivity|].
  destruct (comparefn x y <=? 0); [reflexivity|].
  rewrite IH. apply perm_swap.
Qed.

Lemma sortBy_perm l : Permutation (sortBy comparefn l) l.
Proof.
  induction l as [|x l IH]; simpl; [reflexivity|].
  rewrite insertSorted_perm. now apply perm_skip.
Qed.

(** Elements that the comparator puts in one class keep their order. *)
Lemma filter_insertSorted (P : A -> bool) x l :
  (forall a b, P a = true -> P b = true -> comparefn a b <= 0) ->
  List.filter P (insertSorted comparefn x l) = List.filter P (x :: l).
Proof.
  intros HP. induction l as [|y r IH]; [reflexivity|].
  simpl insertSorted. destruct (comparefn x y <=? 0) eqn:E; [reflexivity|].
  apply Z.leb_gt in E.
  change (List.filter P (y :: insertSorted comparefn x r))
    with (if P y then y :: List.filter P (insertSorted comparefn x r)
          else List.filter P (insertSorted comparefn x r)).
  rewrite IH. simpl.
  destruct (P x) eqn:Px, (P y) eqn:Py; try reflexivity.
  specialize (HP x y Px Py). lia.
Qed.

Lemma filter_sortBy (P : A -> bool) l :
  (forall a b, P a = true -> P b = true -> comparefn a b <= 0) ->
  List.filter P (sortBy comparefn l) = List.filter P l.
Proof.
  intros HP. induction l as [|x l IH]; [reflexivity|].
  simpl sortBy. rewrite filter_insertSorted by exact HP.
  simpl. now rewrite IH.
Qed.

Section Ordered.
Hypothesis total : forall a b, comparefn a b <= 0 \/ comparefn b a <= 0.
Hypothesis trans :
  forall a b c, comparefn a b <= 0 -> comparefn b c <= 0 -> comparefn a c <= 0.

Lemma insertSorted_sorted x l :
  StronglySorted (fun a b => comparefn a b <= 0) l ->
  StronglySorted (fun a b => comparefn a b <= 0) (insertSorted comparefn x l).
Proof.
  induction 1 as [|y r Hr IH Hy]; simpl.
  - repeat constructor.
  - destruct (comparefn x y <=? 0) eqn:E.
    + apply Z.leb_le in E. constructor; [now constructor|].
      constructor; [exact E|].
      eapply Forall_impl; [exact Hy|]. intros z Hz. now apply (trans x y z).
    + apply Z.leb_gt in E. constructor; [exact IH|].
      rewrite insertSorted_perm. constructor; [|exact Hy].
      destruct (total x y) as [H|H]; [lia | exact H].
Qed.

Lemma sortBy_sorted l :
  StronglySorted (fun a b => comparefn a b <= 0) (sortBy comparefn l).
Proof.
  induction l as [|x l IH]; simpl; [constructor|].
  now apply insertSorted_sorted.
Qed.

Lemma sorted_head_least x l y :
  StronglySorted (fun a b => comparefn a b <= 0) (x :: l) ->
  In y (x :: l) -> comparefn x y <= 0.
Proof.
  intros Hs Hy. apply StronglySorted_inv in Hs. destruct Hs as [_ Hx].
  destruct Hy as [<- | Hy].
  - destruct (total x x); assumption.
  - rewrite List.Forall_forall in Hx. now apply Hx.
Qed.

(** A sorted list is fixed by its elements and by the order of the
    elements that compare as equal. *)
Lemma sorted_stable_unique l1 : forall l2,
  Permutation l1 l2 ->
  StronglySorted (fun a b => comparefn a b <= 0) l1 ->
  StronglySorted (fun a b => comparefn a b <= 0) l2 ->
  (forall x, List.filter (sameClass comparefn x) l1
             = List.filter (sameClass comparefn x) l2) ->
  l1 = l2.
Proof.
  induction l1 as [|a r1 IH]; intros l2 Hp H1 H2 Hf.
  - apply Permutation_nil in Hp. now subst.
  - destruct l2 as [|b r2].
    + apply Permutation_sym, Permutation_nil in Hp. discriminate.
    + assert (Hab : comparefn a b <= 0).
      { apply (sorted_head_least a r1 b H1).
        apply (Permutation_in b (Permutation_sym Hp)). now left. }
      assert (Hba : comparefn b a <= 0).
      { apply (sorted_head_least b r2 a H2).
        apply (Permutation_in a Hp). now left. }
      assert (Haa : comparefn a a <= 0) by (destruct (total a a); assumption).
      assert (E : a = b).
      { assert (Ca : sameClass comparefn a a = true).
        { unfold sameClass. apply Z.leb_le in Haa. now rewrite Haa. }
        assert (Cb : sameClass comparefn a b = true).
        { unfold sameClass. apply Z.leb_le in Hab, Hba. now rewrite Hab, Hba. }
        specialize (Hf a). simpl in Hf. rewrite Ca, Cb in Hf. congruence. }
      subst b. f_equal. apply IH.
      * now apply Permutation_cons_inv in Hp.
      * now apply StronglySorted_inv in H1.
      * now apply StronglySorted_inv in H2.
      * intros x. specialize (Hf x). simpl in Hf.
        destruct (sameClass comparefn x a); congruence.
Qed.

(** Whatever the algorithm, a stable sort returns [sortBy]. *)
Lemma sortBy_unique l l' :
  Permutation l' l ->
  StronglySorted (fun a b => comparefn a b <= 0) l' ->
  (forall x, List.filter (sameClass comparefn x) l'
             = List.filter (sameClass comparefn x) l) ->
  l' = sortBy comparefn l.
Proof.
  intros Hp Hs Hf. apply sorted_stable_unique.
  - rewrite Hp. symmetry. apply sortBy_perm.
  - exact Hs.
  - apply sortBy_sorted.
  - intros x. rewrite Hf. symmetry. apply filter_sortBy.
    intros a b Ha Hb. unfold sameClass in Ha, Hb.
    apply andb_true_iff in Ha, Hb. destruct Ha as [_ Ha], Hb as [Hb _].
    apply Z.leb_le in Ha, Hb. now apply (trans a x b).
Qed.
End Ordered.
End SortFacts.

Lemma StronglySorted_weaken {A} (R S : A -> A -> Prop) l :
  (forall a b, R a b -> S a b) -> StronglySorted R l -> StronglySorted S l.
Proof.
  intros HRS. induction 1 as [|x l Hl IH Hx]; constructor; [exact IH|].
  eapply Forall_impl; [exact Hx|]. intros y. apply HRS.
Qed.

(** ** The view projection: filtering (C4) and ordering (C5) *)

Lemma compareTasks_le a b : compareTasks a b <= 0 <-> precedes a b.
Proof.
  unfold compareTasks, precedes, rank.
  destruct (_ - _ =? 0) eqn:E; simpl.
  - apply Z.eqb_eq in E. lia.
  - apply Z.eqb_neq in E. lia.
Qed.

Lemma compareTasks_total a b : compareTasks a b <= 0 \/ compareTasks b a <= 0.
Proof. rewrite !compareTasks_le. unfold precedes. lia. Qed.

Lemma compareTasks_trans a b c :
  compareTasks a b <= 0 -> compareTasks b c <= 0 -> compareTasks a c <= 0.
Proof. rewrite !compareTasks_le. unfold precedes. lia. Qed.

Lemma sameKey_compare a b k :
  sameKey k a = true -> sameKey k b = true -> compareTasks a b <= 0.
Proof.
  unfold sameKey. rewrite !andb_true_iff, !Z.eqb_eq, compareTasks_le.
  unfold precedes. lia.
Qed.

Section ViewFacts.
Variable toLowerCase : jsstring -> jsstring.

Lemma keeps_spec f q p t :
  keeps toLowerCase f q p t = true <->
  statusOk f t /\ searchOk toLowerCase q t /\ priorityOk p t.
Proof.
  unfold keeps, searchOk, substringNoCase, substring, statusOk, priorityOk.
  rewrite <- !includes_spec.
  destruct (includes (toLowerCase (Task.title t)) (toLowerCase q)),
           (includes (toLowerCase (Task.description t)) (toLowerCase q)),
           f, (Task.completed t), q as [|c q], p as [|x];
    simpl; try case_bool_decide; simpl; intuition congruence.
Qed.

(** C4. The tasks in the output of [filterTasks] are those of the input
    that pass the three criteria together: the status filter (active
    keeps the incomplete tasks, completed keeps the completed ones, all
    keeps every task), the search (an empty search text keeps every
    task, otherwise the title or the description must contain the text,
    letter case ignored), and the priority filter (all keeps every task,
    otherwise the priority must equal the filter).  Each task that
    passes occurs as often as in the input. *)
Theorem filterTasks_criteria tasks f q p :
  (forall t, In t (filterTasks toLowerCase tasks f q p) <->
             In t tasks /\ statusOk f t /\ searchOk toLowerCase q t /\ priorityOk p t)
  /\ Permutation (filterTasks toLowerCase tasks f q p)
       (List.filter (keeps toLowerCase f q p) tasks)
  /\ (forall t, keeps toLowerCase f q p t = true <->
                statusOk f t /\ searchOk toLowerCase q t /\ priorityOk p t).
Proof.
  assert (HP : Permutation (filterTasks toLowerCase tasks f q p)
                 (List.filter (keeps toLowerCase f q p) tasks))
    by apply sortBy_perm.
  split; [|split; [exact HP | intros t; apply keeps_spec]].
  intros t. rewrite <- keeps_spec, <- filter_In. split.
  - apply Permutation_in. exact HP.
  - apply Permutation_in. symmetry. exact HP.
Qed.

(** C5. The output of [filterTasks] is in descending order of priority
    rank (high 3, medium 2, low 1), tasks of equal rank in descending
    order of creation time, and tasks with the same priority and the
    same creation time stand in the order they have in the input. *)
Theorem filterTasks_sorted_stable tasks f q p :
  (TaskManager.priorityOrder high = 3
     /\ TaskManager.priorityOrder medium = 2
     /\ TaskManager.priorityOrder low = 1)
  /\ StronglySorted precedes (filterTasks toLowerCase tasks f q p)
  /\ forall k, List.filter (sameKey k) (filterTasks toLowerCase tasks f q p)
               = List.filter (sameKey k)
                   (List.filter (keeps toLowerCase f q p) tasks).
Proof.
  split; [easy|]. split.
  - unfold filterTasks.
    eapply StronglySorted_weaken; [|apply sortBy_sorted].
    + intros a b. apply compareTasks_le.
    + apply compareTasks_total.
    + apply compareTasks_trans.
  - intros k. unfold filterTasks. apply filter_sortBy.
    intros a b. apply sameKey_compare.
Qed.

(** Whatever stable sorting algorithm the host uses, the output of
    [filterTasks] is the one that [sortBy] computes. *)
Lemma filterTasks_unique tasks f q p l' :
  Permutation l' (List.filter (keeps toLowerCase f q p) tasks) ->
  StronglySorted (fun a b => compareTasks a b <= 0) l' ->
  (forall x, List.filter (sameClass compareTasks x) l'
             = List.filter (sameClass compareTasks x)
                 (List.filter (keeps toLowerCase f q p) tasks)) ->
  l' = filterTasks toLowerCase tasks f q p.
Proof.
  apply sortBy_unique.
  - apply compareTasks_total.
  - apply compareTasks_trans.
Qed.
End ViewFacts.

(** The scenarios of the specification. *)
Example scenario_active_only :
  filterTasks asciiLower [taskA; taskB] active [] anyPriority = [taskA].
Proof. vm_compute. reflexivity. Qed.

Example scenario_priority_order :
  filterTasks asciiLower [taskLow; taskHigh; taskMedium] all [] anyPriority
  = [taskHigh; taskMedium; taskLow].
Proof. vm_compute. reflexivity. Qed.

Example scenario_search :
  filterTasks asciiLower [taskReport; taskMeeting] all (js "report") anyPriority
  = [taskReport].
Proof. vm_compute. reflexivity. Qed.

Example scenario_recent_first :
  List.map Task.id
    (filterTasks asciiLower [taskA; taskHigh; taskB; taskLow] all [] anyPriority)
  = [js "a"; js "h"; js "b"; js "l"].
Proof. vm_compute. reflexivity. Qed.

(** ** The reducer *)

Lemma withTasks_same s : withTasks s (TaskState.tasks s) = s.
Proof. now destruct s. Qed.

Lemma hasId_true id t : hasId id t = true <-> Task.id t = id.
Proof. unfold hasId. apply bool_decide_eq_true. Qed.

Lemma hasId_false id t : hasId id t = false <-> Task.id t <> id.
Proof. unfold hasId. apply bool_decide_eq_false. Qed.

Lemma replaceById_absent id u ts :
  ~ In id (ids ts) -> replaceById id u ts = ts.
Proof.
  induction ts as [|t ts IH]; simpl; intros H; [reflexivity|].
  destruct (hasId id t) eqn:E.
  - apply hasId_true in E. tauto.
  - f_equal. apply IH. tauto.
Qed.

Lemma filter_absent id ts :
  ~ In id (ids ts) ->
  List.filter (fun task => negb (hasId id task)) ts = ts.
Proof.
  induction ts as [|t ts IH]; simpl; intros H; [reflexivity|].
  destruct (hasId id t) eqn:E; simpl.
  - apply hasId_true in E. tauto.
  - f_equal. apply IH. tauto.
Qed.

Lemma ids_replaceById id u ts :
  Task.id u = id -> ids (replaceById id u ts) = ids ts.
Proof.
  intros Hu. induction ts as [|t ts IH]; simpl; [reflexivity|].
  rewrite IH. f_equal.
  destruct (hasId id t) eqn:E; [|reflexivity].
  apply hasId_true in E. congruence.
Qed.

Lemma updateTask_snd m id u :
  snd (TaskManager.updateTask m id u) = (fun t => spread t u) <$> m !! id.
Proof. unfold TaskManager.updateTask. now destruct (m !! id). Qed.

(** The state a reducer call returns for UPDATE_TASK and TOGGLE_TASK, by
    what the task manager holds at the identifier. *)
Lemma reducer_update_state uuid now m s id u :
  snd (taskReducer uuid now m s (UPDATE_TASK id u)) =
  match m !! id with
  | None => s
  | Some t => withTasks s (replaceById id (spread t u) (TaskState.tasks s))
  end.
Proof. simpl. unfold TaskManager.updateTask. now destruct (m !! id). Qed.

Lemma reducer_toggle_is_update uuid now m s id :
  taskReducer uuid now m s (TOGGLE_TASK id) =
  taskReducer uuid now m s (UPDATE_TASK id (toggleUpdates id (TaskState.tasks s))).
Proof. reflexivity. Qed.

(** C7. An update, a delete or a toggle whose identifier is the identifier
    of no task in the list returns a state equal to the input state,
    whatever the task manager holds.  The reducer is a total function: no
    call fails. *)
Theorem absent_id_noop uuid now m s id :
  ~ In id (ids (TaskState.tasks s)) ->
  (forall updates, snd (taskReducer uuid now m s (UPDATE_TASK id updates)) = s)
  /\ snd (taskReducer uuid now m s (DELETE_TASK id)) = s
  /\ TaskState.tasks (snd (taskReducer uuid now m s (DELETE_TASK id)))
     = TaskState.tasks s
  /\ snd (taskReducer uuid now m s (TOGGLE_TASK id)) = s.
Proof.
  intros H.
  assert (HU : forall u, snd (taskReducer uuid now m s (UPDATE_TASK id u)) = s).
  { intros u. rewrite reducer_update_state. destruct (m !! id); [|reflexivity].
    rewrite replaceById_absent by exact H. apply withTasks_same. }
  assert (HD : snd (taskReducer uuid now m s (DELETE_TASK id)) = s).
  { simpl. rewrite filter_absent by exact H. apply withTasks_same. }
  repeat split.
  - exact HU.
  - exact HD.
  - now rewrite HD.
  - rewrite reducer_toggle_is_update. apply HU.
Qed.

Lemma filter_filter_same {A} (f : A -> bool) l :
  List.filter f (List.filter f l) = List.filter f l.
Proof.
  induction l as [|x l IH]; simpl; [reflexivity|].
  destruct (f x) eqn:E; simpl; [rewrite E; now f_equal | exact IH].
Qed.

(** C8. CLEAR_COMPLETED returns the list of the tasks that are not
    completed, in their order: a task is in the result exactly when it is
    in the list and incomplete.  The filter fields and the task manager are
    as before, and a second CLEAR_COMPLETED changes nothing. *)
Theorem clear_completed_exact_idempotent uuid now uuid' now' m s :
  let r := taskReducer uuid now m s CLEAR_COMPLETED in
  TaskState.tasks (snd r)
  = List.filter (fun t => negb (Task.completed t)) (TaskState.tasks s)
  /\ (forall t, In t (TaskState.tasks (snd r)) <->
                In t (TaskState.tasks s) /\ Task.completed t = false)
  /\ TaskState.filter (snd r) = TaskState.filter s
  /\ TaskState.searchQuery (snd r) = TaskState.searchQuery s
  /\ TaskState.selectedPriority (snd r) = TaskState.selectedPriority s
  /\ taskReducer uuid' now' (fst r) (snd r) CLEAR_COMPLETED = r.
Proof.
  simpl. split; [reflexivity|]. split.
  - intros t. rewrite filter_In. now destruct (Task.completed t).
  - repeat split. unfold withTasks. simpl. now rewrite filter_filter_same.
Qed.

(** C10. SET_FILTER, SET_SEARCH and SET_PRIORITY_FILTER each put their
    payload, as it is, in their own field; the task list, the two other
    fields and the task manager are as before. *)
Theorem filter_setters_frame uuid now m s :
  (forall f, let r := taskReducer uuid now m s (SET_FILTER f) in
     TaskState.filter (snd r) = f
     /\ TaskState.tasks (snd r) = TaskState.tasks s
     /\ TaskState.searchQuery (snd r) = TaskState.searchQuery s
     /\ TaskState.selectedPriority (snd r) = TaskState.selectedPriority s
     /\ fst r = m)
  /\ (forall q, let r := taskReducer uuid now m s (SET_SEARCH q) in
     TaskState.searchQuery (snd r) = q
     /\ TaskState.tasks (snd r) = TaskState.tasks s
     /\ TaskState.filter (snd r) = TaskState.filter s
     /\ TaskState.selectedPriority (snd r) = TaskState.selectedPriority s
     /\ fst r = m)
  /\ (forall p, let r := taskReducer uuid now m s (SET_PRIORITY_FILTER p) in
     TaskState.selectedPriority (snd r) = p
     /\ TaskState.tasks (snd r) = TaskState.tasks s
     /\ TaskState.filter (snd r) = TaskState.filter s
     /\ TaskState.searchQuery (snd r) = TaskState.searchQuery s
     /\ fst r = m).
Proof. repeat split. Qed.

(** *** Toggle *)

Lemma map_fixed {A} (f : A -> A) l :
  (forall x, In x l -> f x = x) -> List.map f l = l.
Proof.
  induction l as [|x l IH]; simpl; intros H; [reflexivity|].
  rewrite H by now left. f_equal. apply IH. intros y Hy. apply H. now right.
Qed.

Lemma flipped_flipped t : flipped (flipped t) = t.
Proof. destruct t. unfold flipped. simpl. now rewrite negb_involutive. Qed.

Lemma find_hasId id t0 ts :
  In id (ids ts) ->
  (forall t, In t ts -> Task.id t = id -> t = t0) ->
  List.find (hasId id) ts = Some t0.
Proof.
  induction ts as [|t ts IH]; simpl; intros Hin Hall; [easy|].
  destruct (hasId id t) eqn:E.
  - apply hasId_true in E. f_equal. apply Hall; [now left | exact E].
  - apply hasId_false in E. apply IH.
    + destruct Hin as [Hin|Hin]; [congruence | exact Hin].
    + intros t' Ht'. apply Hall. now right.
Qed.

Lemma replaceById_as_map id (f : Task.t -> Task.t) t0 ts :
  (forall t, In t ts -> Task.id t = id -> t = t0) ->
  replaceById id (f t0) ts
  = List.map (fun t => if hasId id t then f t else t) ts.
Proof.
  intros Hall. unfold replaceById. apply map_ext_in. intros t Ht.
  destruct (hasId id t) eqn:E; [|reflexivity].
  apply hasId_true in E. now rewrite (Hall t Ht E).
Qed.

Lemma In_replaceById id u ts t :
  In t (replaceById id u ts) ->
  (t = u /\ In id (ids ts)) \/ (In t ts /\ Task.id t <> id).
Proof.
  unfold replaceById. rewrite in_map_iff. intros [t' [E Ht']].
  destruct (hasId id t') eqn:Ei.
  - left. apply hasId_true in Ei. split; [easy|].
    unfold ids. apply in_map_iff. now exists t'.
  - right. subst t'. apply hasId_false in Ei. tauto.
Qed.

(** The first TOGGLE_TASK on a task the manager holds as the list does. *)
Lemma toggle_once uuid now m s id t0 :
  In id (ids (TaskState.tasks s)) ->
  (forall t, In t (TaskState.tasks s) -> Task.id t = id -> t = t0) ->
  m !! id = Some t0 ->
  taskReducer uuid now m s (TOGGLE_TASK id)
  = (<[id := flipped t0]> m,
     withTasks s (List.map (fun t => if hasId id t then flipped t else t)
                    (TaskState.tasks s))).
Proof.
  intros Hin Hall Hm. simpl. unfold TaskManager.updateTask. rewrite Hm.
  unfold toggledFlag. rewrite (find_hasId id t0) by assumption.
  change (spread t0 _) with (flipped t0).
  now rewrite (replaceById_as_map id flipped t0) by exact Hall.
Qed.

(** C9, amended.  When the task manager holds, at an identifier of the
    list, the task that the list has with that identifier, a TOGGLE_TASK
    negates the completion flag of that task and leaves its other fields
    and the other tasks as they are, and a second TOGGLE_TASK returns the
    state, and the task manager, that were there before the first. *)
Theorem toggle_twice uuid1 now1 uuid2 now2 m s id :
  In id (ids (TaskState.tasks s)) ->
  (forall t, In t (TaskState.tasks s) -> Task.id t = id -> m !! id = Some t) ->
  let r1 := taskReducer uuid1 now1 m s (TOGGLE_TASK id) in
  let r2 := taskReducer uuid2 now2 (fst r1) (snd r1) (TOGGLE_TASK id) in
  TaskState.tasks (snd r1)
  = List.map (fun t => if hasId id t then flipped t else t) (TaskState.tasks s)
  /\ snd r2 = s
  /\ fst r2 = m.
Proof.
  intros Hin Hsync.
  assert (Ht0 : exists t0, m !! id = Some t0
             /\ forall t, In t (TaskState.tasks s) -> Task.id t = id -> t = t0).
  { unfold ids in Hin. apply in_map_iff in Hin. destruct Hin as [t0 [E0 H0]].
    exists t0. split; [now apply Hsync|].
    intros t Ht Et. pose proof (Hsync t Ht Et) as H1.
    pose proof (Hsync t0 H0 E0) as H2. congruence. }
  destruct Ht0 as [t0 [Hm Hall]].
  assert (Eid : Task.id t0 = id).
  { unfold ids in Hin. apply in_map_iff in Hin. destruct Hin as [t [E H]].
    now rewrite <- (Hall t H E). }
  intros r1 r2. subst r2 r1.
  rewrite (toggle_once uuid1 now1 m s id t0) by assumption.
  cbn [fst snd]. split; [reflexivity|].
  set (ts1 := List.map (fun t => if hasId id t then flipped t else t)
                (TaskState.tasks s)).
  assert (Hids : ids ts1 = ids (TaskState.tasks s)).
  { unfold ts1. rewrite <- (replaceById_as_map id flipped t0) by exact Hall.
    now apply ids_replaceById. }
  assert (Hall1 : forall t, In t ts1 -> Task.id t = id -> t = flipped t0).
  { intros t Ht Et. unfold ts1 in Ht.
    rewrite <- (replaceById_as_map id flipped t0) in Ht by exact Hall.
    apply In_replaceById in Ht. tauto. }
  rewrite (toggle_once uuid2 now2 _ (withTasks s ts1) id (flipped t0)).
  - rewrite flipped_flipped, insert_insert_eq, insert_id by exact Hm.
    cbn [fst snd]. split; [|reflexivity].
    unfold withTasks. cbn [TaskState.tasks TaskState.filter TaskState.searchQuery
                            TaskState.selectedPriority].
    replace (List.map _ ts1) with (TaskState.tasks s); [now destruct s|].
    unfold ts1. rewrite List.map_map. symmetry. apply map_fixed.
    intros t Ht. destruct (hasId id t) eqn:E.
    + assert (E' : hasId id (flipped t) = true) by exact E.
      rewrite E'. apply flipped_flipped.
    + now rewrite E.
  - cbn [TaskState.tasks withTasks]. now rewrite Hids.
  - exact Hall1.
  - apply lookup_insert_eq.
Qed.

(** *** Add *)

(** C6, amended.  An add action is ADD_TASK with the payload that
    [TaskFactory.createTask] builds from a title.  When the title trims to
    a non-empty string, the returned state has the tasks of the input
    state followed by one new task.  The new task has the trimmed title,
    is not completed, has the identifier that the generator returned and
    the clock reading as creation time, whatever these two are.  The three
    filter fields are unchanged. *)
Theorem add_appends_generated uuid now m s title description priority dueDate tags :
  trim title <> [] ->
  let payload := TaskFactory.createTask title description priority dueDate tags in
  let s' := snd (taskReducer uuid now m s (ADD_TASK payload)) in
  exists newTask,
    TaskState.tasks s' = TaskState.tasks s ++ [newTask]
    /\ length (TaskState.tasks s') = S (length (TaskState.tasks s))
    /\ Task.title newTask = trim title
    /\ Task.title newTask <> []
    /\ Task.completed newTask = false
    /\ Task.id newTask = uuid
    /\ Task.createdAt newTask = now
    /\ TaskState.filter s' = TaskState.filter s
    /\ TaskState.searchQuery s' = TaskState.searchQuery s
    /\ TaskState.selectedPriority s' = TaskState.selectedPriority s.
Proof.
  intros Htitle payload s'. subst s' payload. simpl.
  eexists. split; [reflexivity|]. simpl.
  repeat split; try assumption.
  rewrite length_app. simpl. lia.
Qed.

Lemma submit_dispatches title description priority :
  trim title <> [] ->
  dispatched (Submit title description priority)
  = Some (ADD_TASK (TaskFactory.createTask title description priority None [])).
Proof. intros H. apply truthy_true in H. simpl. now rewrite H. Qed.

(** *** Invariants of the reachable states *)

Lemma identities_filter (f : Task.t -> bool) ts :
  identities (List.filter f ts) `sublist_of` identities ts.
Proof.
  induction ts as [|t ts IH]; simpl; [constructor|].
  destruct (f t); simpl; now constructor.
Qed.

Lemma ids_filter (f : Task.t -> bool) ts :
  ids (List.filter f ts) `sublist_of` ids ts.
Proof.
  induction ts as [|t ts IH]; simpl; [constructor|].
  destruct (f t); simpl; now constructor.
Qed.

Lemma identities_replaceById id u ts :
  (forall t, In t ts -> Task.id t = id ->
             Task.id u = Task.id t /\ Task.createdAt u = Task.createdAt t) ->
  identities (replaceById id u ts) = identities ts.
Proof.
  intros H. unfold identities, replaceById. rewrite List.map_map.
  apply map_ext_in. intros t Ht. destruct (hasId id t) eqn:E; [|reflexivity].
  apply hasId_true in E. destruct (H t Ht E) as [-> ->]. reflexivity.
Qed.

Lemma spread_identity t u :
  keepsIdentity u ->
  Task.id (spread t u) = Task.id t
  /\ Task.createdAt (spread t u) = Task.createdAt t.
Proof. intros [H1 H2]. unfold spread. simpl. now rewrite H1, H2. Qed.

Lemma ids_identities ts : ids ts = List.map fst (identities ts).
Proof. unfold ids, identities. rewrite List.map_map. reflexivity. Qed.

Lemma In_ids id ts : In id (ids ts) <-> exists t, In t ts /\ Task.id t = id.
Proof. unfold ids. rewrite in_map_iff. firstorder. Qed.

(** UPDATE_TASK on a well-formed state, with an update that keeps identity
    and leaves a title that is not blank. *)
Lemma update_wellFormed uuid now m s id u :
  wellFormed m s -> keepsIdentity u ->
  (forall t, titled t -> titled (spread t u)) ->
  wellFormed (fst (taskReducer uuid now m s (UPDATE_TASK id u)))
             (snd (taskReducer uuid now m s (UPDATE_TASK id u)))
  /\ identities (TaskState.tasks (snd (taskReducer uuid now m s (UPDATE_TASK id u))))
     = identities (TaskState.tasks s).
Proof.
  intros (Hs & Hn & Ht) Hu Htitle. simpl. unfold TaskManager.updateTask.
  destruct (m !! id) as [t0|] eqn:Hm; cbn [fst snd]; [|now repeat split].
  assert (Hsame : forall t, In t (TaskState.tasks s) -> Task.id t = id -> t = t0).
  { intros t Hin E. apply Hs in Hin. congruence. }
  assert (Hidents : identities (replaceById id (spread t0 u) (TaskState.tasks s))
                    = identities (TaskState.tasks s)).
  { apply identities_replaceById. intros t Hin E.
    rewrite (Hsame t Hin E). now apply spread_identity. }
  split; [|exact Hidents].
  unfold wellFormed, synced. cbn [TaskState.tasks withTasks]. repeat split.
  - intros t Hin.
    apply In_replaceById in Hin. destruct Hin as [[-> Hi] | [Hin Hne]].
    + apply In_ids in Hi. destruct Hi as [t [H1 E1]].
      destruct (spread_identity t0 u Hu) as [E _].
      rewrite E, <- (Hsame t H1 E1), E1. apply lookup_insert_eq.
    + rewrite lookup_insert_ne by congruence. now apply Hs.
  - now rewrite ids_identities, Hidents, <- ids_identities.
  - apply List.Forall_forall. intros t Hin. apply In_replaceById in Hin.
    rewrite List.Forall_forall in Ht.
    destruct Hin as [[-> Hi] | [Hin _]]; [|now apply Ht].
    apply In_ids in Hi. destruct Hi as [t [H1 E1]].
    apply Htitle. rewrite <- (Hsame t H1 E1). now apply Ht.
Qed.

Lemma NoDup_sublist {A} (l k : list A) :
  l `sublist_of` k -> NoDup k -> NoDup l.
Proof. intros H Hk. exact (sublist_NoDup l k Hk H). Qed.

(** One call with an action that a user event dispatches. *)
Lemma step_wellFormed uuid now m s e a :
  wellFormed m s ->
  dispatched e = Some a ->
  ~ In uuid (ids (TaskState.tasks s)) ->
  wellFormed (fst (taskReducer uuid now m s a)) (snd (taskReducer uuid now m s a))
  /\ identityStep uuid now a (identities (TaskState.tasks s))
       (identities (TaskState.tasks (snd (taskReducer uuid now m s a)))).
Proof.
  intros Hwf Hd Hfresh. pose proof Hwf as (Hs & Hn & Ht).
  destruct e as [title description priority | id editTitle editDescription
                | id | id | f | q | p | ]; simpl in Hd.
  - (* Submit *)
    destruct (truthy (trim title)) eqn:Etitle; [|discriminate].
    injection Hd as <-. apply truthy_true in Etitle. simpl. split.
    + unfold wellFormed, synced. cbn [TaskState.tasks withTasks]. repeat split.
      * intros t Hin. apply in_app_or in Hin. unfold TaskManager.addTask. simpl.
        destruct Hin as [Hin | [<- | []]].
        -- rewrite lookup_insert_ne; [now apply Hs|].
           intros E. apply Hfresh. apply In_ids. now exists t.
        -- apply lookup_insert_eq.
      * unfold ids. rewrite List.map_app. simpl.
        apply NoDup_app. split; [exact Hn|]. split.
        -- intros x Hx [E | []]%list_elem_of_In. subst x.
           apply Hfresh. now apply list_elem_of_In.
        -- apply NoDup_singleton.
      * apply Forall_app. split; [exact Ht|]. constructor; [|constructor].
        unfold titled. simpl. now rewrite trim_idem.
    + unfold identities. now rewrite List.map_app.
  - (* Save *)
    destruct (truthy (trim editTitle)) eqn:Etitle; [|discriminate].
    injection Hd as <-. apply truthy_true in Etitle.
    apply update_wellFormed; [exact Hwf | now split |].
    intros t _. unfold titled. simpl. now rewrite trim_idem.
  - (* Toggle *)
    injection Hd as <-. rewrite reducer_toggle_is_update.
    apply update_wellFormed; [exact Hwf | now split |].
    intros t H. exact H.
  - (* Delete *)
    injection Hd as <-. simpl. split.
    + unfold wellFormed, synced. cbn [TaskState.tasks withTasks]. repeat split.
      * intros t Hin. apply filter_In in Hin. destruct Hin as [Hin Hne].
        apply negb_true_iff, hasId_false in Hne.
        rewrite lookup_delete_ne by congruence. now apply Hs.
      * eapply NoDup_sublist; [apply ids_filter | exact Hn].
      * apply List.Forall_forall. intros t Hin. apply filter_In in Hin.
        rewrite List.Forall_forall in Ht. now apply Ht.
    + apply identities_filter.
  - injection Hd as <-. simpl. now repeat split.
  - injection Hd as <-. simpl. now repeat split.
  - injection Hd as <-. simpl. now repeat split.
  - (* ClearCompleted *)
    injection Hd as <-. simpl. split.
    + unfold wellFormed, synced. cbn [TaskState.tasks withTasks]. repeat split.
      * intros t Hin. apply filter_In in Hin. now apply Hs.
      * eapply NoDup_sublist; [apply ids_filter | exact Hn].
      * apply List.Forall_forall. intros t Hin. apply filter_In in Hin.
        rewrite List.Forall_forall in Ht. now apply Ht.
    + apply identities_filter.
Qed.

Lemma initial_wellFormed : wellFormed initialMap initialState.
Proof.
  repeat split.
  - intros t [].
  - constructor.
  - constructor.
Qed.

Lemma reachable_wellFormed m s : reachable m s -> wellFormed m s.
Proof.
  induction 1 as [|m s e a uuid now Hr IH Hd Hfresh].
  - apply initial_wellFormed.
  - now apply (step_wellFormed uuid now m s e a).
Qed.

(** C3, amended.  In every state that the application reaches (by actions
    that user events dispatch, every generated identifier being new to the
    list) the identifiers of the tasks are pairwise different and every
    title is non-empty after trimming; and every further such action
    leaves the identifier and the creation time of every task it keeps as
    they are: an add appends the new pair, a delete or a clear drops
    pairs, an update, a toggle and the filter actions change none. *)
Theorem reachable_identity_invariants m s :
  reachable m s ->
  NoDup (ids (TaskState.tasks s))
  /\ (forall t, In t (TaskState.tasks s) -> trim (Task.title t) <> [])
  /\ forall e a uuid now,
       dispatched e = Some a ->
       ~ In uuid (ids (TaskState.tasks s)) ->
       identityStep uuid now a (identities (TaskState.tasks s))
         (identities (TaskState.tasks (snd (taskReducer uuid now m s a)))).
Proof.
  intros Hr. apply reachable_wellFormed in Hr.
  pose proof Hr as (_ & Hn & Ht). split; [exact Hn|]. split.
  - rewrite List.Forall_forall in Ht. exact Ht.
  - intros e a uuid now Hd Hfresh.
    now apply (step_wellFormed uuid now m s e a).
Qed.

(** *** What the returned state depends on (C1) *)

(** C1, amended.  The state that [taskReducer] returns is determined by
    the input state, the action, the entry that the task manager holds for
    the identifier of the action and, for an add, the values that the
    identifier generator and the clock return during the call.  Besides
    returning that state, a call writes at most one entry of the task
    manager: the entry of the new identifier for an add, the entry of the
    action's identifier for an update, a delete or a toggle. *)
Theorem reducer_determined uuid1 now1 uuid2 now2 m1 m2 s a :
  (isAdd a = true -> uuid1 = uuid2 /\ now1 = now2) ->
  (forall id, actionId a = Some id -> m1 !! id = m2 !! id) ->
  snd (taskReducer uuid1 now1 m1 s a) = snd (taskReducer uuid2 now2 m2 s a)
  /\ forall k, writtenKey uuid1 a <> Some k ->
               fst (taskReducer uuid1 now1 m1 s a) !! k = m1 !! k.
Proof.
  intros Hadd Hm. split.
  - destruct a as [payload | id u | id | id | f | q | p | ]; try reflexivity.
    + destruct (Hadd eq_refl) as [-> ->]. reflexivity.
    + rewrite !reducer_update_state. now rewrite (Hm id eq_refl).
    + rewrite !reducer_toggle_is_update, !reducer_update_state.
      now rewrite (Hm id eq_refl).
  - intros k Hk.
    destruct a as [payload | id u | id | id | f | q | p | ];
      simpl in *; try reflexivity.
    + unfold TaskManager.addTask. simpl. apply lookup_insert_ne. congruence.
    + unfold TaskManager.updateTask. destruct (m1 !! id); [|reflexivity].
      simpl. apply lookup_insert_ne. congruence.
    + apply lookup_delete_ne. congruence.
    + unfold TaskManager.updateTask. destruct (m1 !! id); [|reflexivity].
      simpl. apply lookup_insert_ne. congruence.
Qed.

(** *** The task manager and the list (C2) *)

(** DELETE_TASK removes the identifier from the map and from the list. *)
Lemma delete_keeps_idsInSync uuid now m s id :
  idsInSync m s ->
  idsInSync (fst (taskReducer uuid now m s (DELETE_TASK id)))
            (snd (taskReducer uuid now m s (DELETE_TASK id))).
Proof.
  intros H k. simpl. rewrite In_ids.
  destruct (decide (id = k)) as [->|Hne].
  - rewrite lookup_delete_eq. split; [intros [? ?]; discriminate|].
    intros [t [Hin E]]. apply filter_In in Hin. destruct Hin as [_ Hin].
    apply negb_true_iff, hasId_false in Hin. contradiction.
  - rewrite lookup_delete_ne by exact Hne. rewrite (H k), In_ids. split.
    + intros [t [Hin E]]. exists t. split; [|exact E].
      apply filter_In. split; [exact Hin|].
      apply negb_true_iff, hasId_false. congruence.
    + intros [t [Hin E]]. exists t. apply filter_In in Hin. tauto.
Qed.

Lemma reducer_update_map uuid now m s id u :
  fst (taskReducer uuid now m s (UPDATE_TASK id u)) =
  match m !! id with
  | None => m
  | Some t => <[id := spread t u]> m
  end.
Proof. simpl. unfold TaskManager.updateTask. now destruct (m !! id). Qed.

Lemma update_keeps_idsInSync uuid now m s id u :
  wellFormed m s -> keepsIdentity u ->
  (forall t, titled t -> titled (spread t u)) ->
  idsInSync m s ->
  idsInSync (fst (taskReducer uuid now m s (UPDATE_TASK id u)))
            (snd (taskReducer uuid now m s (UPDATE_TASK id u))).
Proof.
  intros Hwf Hu Ht H k.
  destruct (update_wellFormed uuid now m s id u Hwf Hu Ht) as [_ Hi].
  rewrite ids_identities, Hi, <- ids_identities, <- (H k), reducer_update_map.
  destruct (m !! id) as [t0|] eqn:Hm; [|reflexivity].
  destruct (decide (id = k)) as [<-|Hne].
  - rewrite lookup_insert_eq, Hm. split; eauto.
  - now rewrite lookup_insert_ne.
Qed.

(** Of the actions that user events dispatch, every one but
    CLEAR_COMPLETED keeps the identifiers of the map those of the list. *)
Lemma step_keeps_idsInSync uuid now m s e a :
  wellFormed m s ->
  idsInSync m s ->
  dispatched e = Some a ->
  a <> CLEAR_COMPLETED ->
  ~ In uuid (ids (TaskState.tasks s)) ->
  idsInSync (fst (taskReducer uuid now m s a)) (snd (taskReducer uuid now m s a)).
Proof.
  intros Hwf H Hd Hclear Hfresh.
  destruct e as [title description priority | id editTitle editDescription
                | id | id | f | q | p | ]; simpl in Hd.
  - destruct (truthy (trim title)) eqn:Etitle; [|discriminate].
    injection Hd as <-. intros k. simpl. unfold TaskManager.addTask, ids. simpl.
    rewrite List.map_app, in_app_iff. simpl.
    destruct (decide (uuid = k)) as [<-|Hne].
    + rewrite lookup_insert_eq. split; [tauto | eauto].
    + rewrite lookup_insert_ne by exact Hne. rewrite (H k). unfold ids. tauto.
  - destruct (truthy (trim editTitle)) eqn:Etitle; [|discriminate].
    injection Hd as <-. apply truthy_true in Etitle.
    apply update_keeps_idsInSync; [exact Hwf | now split | | exact H].
    intros t _. unfold titled. simpl. now rewrite trim_idem.
  - injection Hd as <-. rewrite reducer_toggle_is_update.
    apply update_keeps_idsInSync; [exact Hwf | now split | | exact H].
    intros t Ht. exact Ht.
  - injection Hd as <-. now apply delete_keeps_idsInSync.
  - injection Hd as <-. exact H.
  - injection Hd as <-. exact H.
  - injection Hd as <-. exact H.
  - injection Hd as <-. contradiction.
Qed.

(** CLEAR_COMPLETED drops the completed tasks from the list and leaves
    their entries in the map. *)
Lemma clear_completed_keeps_map uuid now m s :
  fst (taskReducer uuid now m s CLEAR_COMPLETED) = m.
Proof. reflexivity. Qed.

(** ** Concrete runs, witnesses and counterexamples *)

Example clearRun_dispatched :
  dispatched (Submit (js "  Write Report ") [] high)
    = Some (ADD_TASK reportPayload)
  /\ dispatched (Toggle (js "u1")) = Some (TOGGLE_TASK (js "u1"))
  /\ dispatched ClearCompleted = Some CLEAR_COMPLETED.
Proof. repeat split. Qed.

(** C2.  After an add, a toggle of the new task and CLEAR_COMPLETED, the
    list is empty and the map still holds the task: the identifiers in the
    map are not those of the list. *)
Theorem clear_completed_desyncs :
  let r := run (initialMap, initialState) clearRun in
  TaskState.tasks (snd r) = []
  /\ is_Some (fst r !! js "u1")
  /\ ~ idsInSync (fst r) (snd r).
Proof.
  assert (H1 : TaskState.tasks (snd (run (initialMap, initialState) clearRun)) = [])
    by (vm_compute; reflexivity).
  assert (H2 : is_Some (fst (run (initialMap, initialState) clearRun) !! js "u1"))
    by (vm_compute; eexists; reflexivity).
  cbv zeta. split; [exact H1|]. split; [exact H2|].
  intros H. apply H in H2. rewrite H1 in H2. exact H2.
Qed.

(** C1, as stated, fails.  Two calls of the reducer in a row with the same
    state and the same action return different states, the first call has
    changed the task manager, and the state returned for an update
    depends on what the task manager holds. *)
Lemma reducer_output_varies :
  let a := ADD_TASK reportPayload in
  let r1 := taskReducer (js "u1") 100 initialMap initialState a in
  let r2 := taskReducer (js "u2") 101 (fst r1) initialState a in
  let u := UPDATE_TASK (js "u1") renameUpdates in
  snd r1 <> snd r2
  /\ fst r1 <> initialMap
  /\ snd (taskReducer (js "u3") 102 (fst oneTask) (snd oneTask) u)
     <> snd (taskReducer (js "u3") 102 initialMap (snd oneTask) u).
Proof.
  cbv zeta. split; [|split].
  - intros H. vm_compute in H. discriminate H.
  - intros H. apply (f_equal (fun m => m !! js "u1")) in H.
    vm_compute in H. discriminate H.
  - intros H. vm_compute in H. discriminate H.
Qed.

Lemma reducer_determined_witness :
  snd (taskReducer (js "u7") 1 (fst oneTask) (snd oneTask) (TOGGLE_TASK (js "u1")))
  = snd (taskReducer (js "u8") 2
           (<[js "b" := taskB]> (fst oneTask))
           (snd oneTask) (TOGGLE_TASK (js "u1"))).
Proof.
  apply (reducer_determined (js "u7") 1 (js "u8") 2).
  - discriminate.
  - intros id [= <-]. vm_compute. reflexivity.
Defined.

(** C3, as stated, fails.  After one add, an UPDATE_TASK whose updates
    name [id], [createdAt] and an empty [title] changes the identifier and
    the creation time of the task and leaves it with an empty title. *)
Lemma update_overwrites_identity :
  let r := taskReducer (js "u2") 200 (fst oneTask) (snd oneTask)
             (UPDATE_TASK (js "u1") renameUpdates) in
  identities (TaskState.tasks (snd oneTask)) = [(js "u1", 100)]
  /\ identities (TaskState.tasks (snd r)) = [(js "zz", 0)]
  /\ List.map Task.title (TaskState.tasks (snd r)) = [[]]
  /\ ~ identityStep (js "u2") 200 (UPDATE_TASK (js "u1") renameUpdates)
        (identities (TaskState.tasks (snd oneTask)))
        (identities (TaskState.tasks (snd r))).
Proof.
  cbv zeta. repeat split; try (vm_compute; reflexivity).
  intros H. vm_compute in H. discriminate H.
Qed.

Lemma oneTask_reachable : reachable (fst oneTask) (snd oneTask).
Proof.
  apply (reachable_step initialMap initialState
           (Submit (js "  Write Report ") [] high)
           (ADD_TASK reportPayload) (js "u1") 100).
  - apply reachable_init.
  - reflexivity.
  - simpl. tauto.
Qed.

Lemma reachable_identity_invariants_witness :
  NoDup (ids (TaskState.tasks (snd oneTask)))
  /\ identities
       (TaskState.tasks
          (snd (taskReducer (js "u2") 200 (fst oneTask) (snd oneTask)
                  (TOGGLE_TASK (js "u1")))))
     = identities (TaskState.tasks (snd oneTask)).
Proof.
  destruct (reachable_identity_invariants (fst oneTask) (snd oneTask)
              oneTask_reachable) as (Hn & _ & Hstep).
  split; [exact Hn|].
  apply (Hstep (Toggle (js "u1")) (TOGGLE_TASK (js "u1")) (js "u2") 200).
  - reflexivity.
  - vm_compute. intros [H|[]]. discriminate H.
Defined.

Lemma absent_id_noop_witness :
  ~ In (js "u2") (ids (TaskState.tasks (snd oneTask)))
  /\ snd (taskReducer (js "u9") 5 (fst oneTask) (snd oneTask)
            (TOGGLE_TASK (js "u2")))
     = snd oneTask.
Proof.
  assert (H : ~ In (js "u2") (ids (TaskState.tasks (snd oneTask)))).
  { vm_compute. intros [H|[]]. discriminate H. }
  split; [exact H|].
  apply (absent_id_noop (js "u9") 5 (fst oneTask) (snd oneTask) (js "u2") H).
Defined.

Lemma toggle_twice_witness :
  let r1 := taskReducer (js "u8") 7 (fst oneTask) (snd oneTask)
              (TOGGLE_TASK (js "u1")) in
  snd (taskReducer (js "u9") 8 (fst r1) (snd r1) (TOGGLE_TASK (js "u1")))
  = snd oneTask.
Proof.
  apply (toggle_twice (js "u8") 7 (js "u9") 8 (fst oneTask) (snd oneTask) (js "u1")).
  - vm_compute. now left.
  - intros t [<-|[]] _. vm_compute. reflexivity.
Defined.

Lemma add_appends_generated_witness :
  exists newTask,
    TaskState.tasks
      (snd (taskReducer (js "u2") 200 (fst oneTask) (snd oneTask)
              (ADD_TASK meetingPayload)))
    = TaskState.tasks (snd oneTask) ++ [newTask]
    /\ Task.title newTask = js "Meeting"
    /\ Task.completed newTask = false
    /\ Task.id newTask = js "u2"
    /\ Task.createdAt newTask = 200.
Proof.
  destruct (add_appends_generated (js "u2") 200 (fst oneTask) (snd oneTask)
              (js "Meeting") (js "discuss budget") low None [])
    as (newTask & H1 & _ & H2 & _ & H3 & H4 & H5 & _).
  - vm_compute. discriminate.
  - exists newTask. repeat split; assumption.
Defined.

(** C6, as stated, fails.  The reducer takes the identifier and the
    creation time as the generator and the clock give them.  An add on the
    state with the one task of identifier u1 and creation time 100, when
    the generator returns u1 and the clock reads 50, appends a task whose
    identifier the list already has and whose creation time is earlier
    than that of the task before it. *)
Lemma add_neither_fresh_nor_later :
  let s' := snd (taskReducer (js "u1") 50 (fst oneTask) (snd oneTask)
                   (ADD_TASK meetingPayload)) in
  trim (js "Meeting") <> []
  /\ ids (TaskState.tasks (snd oneTask)) = [js "u1"]
  /\ List.map Task.createdAt (TaskState.tasks (snd oneTask)) = [100]
  /\ ids (TaskState.tasks s') = [js "u1"; js "u1"]
  /\ List.map Task.createdAt (TaskState.tasks s') = [100; 50]
  /\ ~ NoDup (ids (TaskState.tasks s')).
Proof.
  cbv zeta. split; [vm_compute; discriminate|].
  repeat split; try (vm_compute; reflexivity).
  intros H. vm_compute in H. apply NoDup_cons in H. destruct H as [H _].
  apply H. now left.
Qed.

(** C9, as stated, fails.  After the calls of [renameRun] the list has a
    task A under the identifier zz and a task B under u1, and the task
    manager holds A under u1.  The identifier u1 is in the list; two
    toggles of u1 leave the list with two copies of A, the second one
    completed, and without B. *)
Lemma toggle_twice_unsynced :
  let ms := run (initialMap, initialState) renameRun in
  let r := run ms [ mkCall [] 0 (TOGGLE_TASK (js "u1"));
                    mkCall [] 0 (TOGGLE_TASK (js "u1")) ] in
  In (js "u1") (ids (TaskState.tasks (snd ms)))
  /\ List.map (fun t => (Task.id t, Task.title t, Task.completed t))
       (TaskState.tasks (snd ms))
     = [ (js "zz", js "A", false); (js "u1", js "B", false) ]
  /\ List.map (fun t => (Task.id t, Task.title t, Task.completed t))
       (TaskState.tasks (snd r))
     = [ (js "zz", js "A", false); (js "zz", js "A", true) ]
  /\ snd r <> snd ms.
Proof.
  cbv zeta. split; [vm_compute; tauto|].
  repeat split; try (vm_compute; reflexivity).
  intros H. vm_compute in H. discriminate H.
Qed.

(** * Further properties of the code *)

(** ** The task manager's single-item operations *)

Lemma spread_merge t u1 u2 :
  spread (spread t u1) u2 = spread t (mergeUpdates u1 u2).
Proof.
  destruct u1 as [i1 t1 d1 c1 p1 a1 e1 g1], u2 as [i2 t2 d2 c2 p2 a2 e2 g2].
  unfold spread, mergeUpdates. simpl.
  now destruct i2, t2, d2, c2, p2, a2, e2, g2.
Qed.

Lemma spread_same t u : spread (spread t u) u = spread t u.
Proof.
  destruct u as [i1 t1 d1 c1 p1 a1 e1 g1]. unfold spread. simpl.
  now destruct i1, t1, d1, c1, p1, a1, e1, g1.
Qed.

(** X1. [updateTask] returns [null] exactly when the map has no entry
    under the identifier, and then leaves the map as it is.  It never adds
    or removes a key, not even when the updates name another [id]: the
    updated task stays under the identifier it was looked up with, and the
    other entries are untouched. *)
Theorem updateTask_keys m id u :
  (snd (TaskManager.updateTask m id u) = None <-> m !! id = None)
  /\ (m !! id = None -> fst (TaskManager.updateTask m id u) = m)
  /\ (forall k, is_Some (fst (TaskManager.updateTask m id u) !! k)
                <-> is_Some (m !! k))
  /\ (forall k, k <> id -> fst (TaskManager.updateTask m id u) !! k = m !! k)
  /\ fst (TaskManager.updateTask m id u) !! id
     = snd (TaskManager.updateTask m id u).
Proof.
  unfold TaskManager.updateTask.
  destruct (m !! id) as [t|] eqn:E; simpl.
  - repeat split; try discriminate.
    + intros H. destruct (decide (id = k)) as [<-|Hne]; [now rewrite E|].
      now rewrite lookup_insert_ne in H.
    + intros H. destruct (decide (id = k)) as [<-|Hne].
      * rewrite lookup_insert_eq. eauto.
      * now rewrite lookup_insert_ne.
    + intros k Hk. apply lookup_insert_ne. congruence.
    + apply lookup_insert_eq.
  - repeat split; auto.
Qed.

(** X2. Two calls of [updateTask] on one identifier are one call with the
    two update objects merged, the later one winning on the properties
    that both name. *)
Theorem updateTask_compose m id u1 u2 :
  TaskManager.updateTask (fst (TaskManager.updateTask m id u1)) id u2
  = TaskManager.updateTask m id (mergeUpdates u1 u2).
Proof.
  unfold TaskManager.updateTask.
  destruct (m !! id) as [t|] eqn:E; simpl.
  - rewrite lookup_insert_eq. simpl. now rewrite insert_insert_eq, spread_merge.
  - now rewrite E.
Qed.

(** X3. [deleteTask] returns [true] exactly when an entry existed.  After
    it the identifier has no entry, the other entries are as before, an
    [updateTask] on the identifier returns [null], and a second
    [deleteTask] returns [false] and changes nothing. *)
Theorem deleteTask_reports m id :
  let r := TaskManager.deleteTask m id in
  (snd r = true <-> is_Some (m !! id))
  /\ fst r !! id = None
  /\ (forall k, k <> id -> fst r !! k = m !! k)
  /\ (forall u, TaskManager.updateTask (fst r) id u = (fst r, None))
  /\ TaskManager.deleteTask (fst r) id = (fst r, false)
  /\ (m !! id = None -> r = (m, false)).
Proof.
  unfold TaskManager.deleteTask. simpl. repeat split.
  - apply bool_decide_eq_true.
  - apply bool_decide_eq_true.
  - apply lookup_delete_eq.
  - intros k Hk. apply lookup_delete_ne. congruence.
  - intros u. unfold TaskManager.updateTask. now rewrite lookup_delete_eq.
  - f_equal.
    + apply delete_id. apply lookup_delete_eq.
    + apply bool_decide_eq_false. rewrite lookup_delete_eq.
      intros [? ?]. discriminate.
  - intros E. f_equal.
    + now apply delete_id.
    + apply bool_decide_eq_false. rewrite E. intros [? ?]. discriminate.
Qed.

(** X4. A task stored with [addTask] under an identifier the map did not
    hold is what [updateTask] then works on, and [deleteTask] on it gives
    the map back. *)
Theorem addTask_roundtrip m task u :
  m !! Task.id task = None ->
  TaskManager.updateTask (TaskManager.addTask m task) (Task.id task) u
  = (<[Task.id task := spread task u]> m, Some (spread task u))
  /\ TaskManager.deleteTask (TaskManager.addTask m task) (Task.id task)
     = (m, true).
Proof.
  intros E. unfold TaskManager.updateTask, TaskManager.deleteTask,
    TaskManager.addTask. rewrite lookup_insert_eq. split.
  - now rewrite insert_insert_eq.
  - f_equal. rewrite delete_insert_eq. now apply delete_id.
Qed.

Lemma addTask_roundtrip_witness :
  TaskManager.deleteTask (TaskManager.addTask (fst oneTask) taskB) (Task.id taskB)
  = (fst oneTask, true).
Proof.
  apply (addTask_roundtrip (fst oneTask) taskB
           (Updates.mk None None None None None None None None)).
  vm_compute. reflexivity.
Defined.

(** ** Trimming, the factory and the guards of the handlers *)

Lemma trimStart_split s : exists ws, s = ws ++ trimStart s /\ whiteSpaces ws.
Proof.
  induction s as [|c r (ws & E & Hws)]; simpl.
  - exists []. split; [reflexivity | constructor].
  - destruct (isWhiteSpace c) eqn:Ec.
    + exists (c :: ws). split; [simpl; now f_equal | now constructor].
    + exists []. split; [reflexivity | constructor].
Qed.

Lemma trimStart_blank s : trimStart s = [] <-> whiteSpaces s.
Proof.
  induction s as [|c r IH]; simpl.
  - split; [constructor | reflexivity].
  - destruct (isWhiteSpace c) eqn:Ec.
    + rewrite IH. split; [now constructor | now inversion 1].
    + split; [discriminate | inversion 1; congruence].
Qed.

Lemma whiteSpaces_rev s : whiteSpaces (rev s) <-> whiteSpaces s.
Proof.
  unfold whiteSpaces. rewrite !List.Forall_forall.
  split; intros H c Hc; apply H; [now apply in_rev in Hc | now apply in_rev].
Qed.

Lemma trimEnd_split s : exists ws, s = trimEnd s ++ ws /\ whiteSpaces ws.
Proof.
  unfold trimEnd. destruct (trimStart_split (rev s)) as (ws & E & Hws).
  exists (rev ws). split.
  - rewrite <- rev_app_distr, <- E. now rewrite rev_involutive.
  - now apply whiteSpaces_rev.
Qed.

Lemma whiteSpaces_app s1 s2 :
  whiteSpaces (s1 ++ s2) <-> whiteSpaces s1 /\ whiteSpaces s2.
Proof. apply Forall_app. Qed.

Lemma trim_blank s : trim s = [] <-> whiteSpaces s.
Proof.
  unfold trim. split.
  - intros E. destruct (trimStart_split s) as (ws1 & E1 & H1).
    destruct (trimEnd_split (trimStart s)) as (ws2 & E2 & H2).
    rewrite E in E2. simpl in E2. rewrite E1, E2.
    apply whiteSpaces_app. now split.
  - intros H. apply trimStart_blank in H. now rewrite H.
Qed.

(** X5. The payload that [createTask] builds is not completed, carries the
    priority, due date and tags it is given, and its title and description
    are the arguments with the white space at both ends taken off: each
    argument is white space, then the stored text, then white space, and
    the stored text neither starts nor ends with white space. *)
Theorem createTask_trims title description priority dueDate tags :
  let p := TaskFactory.createTask title description priority dueDate tags in
  (exists ws1 ws2, title = ws1 ++ NewTask.title p ++ ws2
     /\ whiteSpaces ws1 /\ whiteSpaces ws2)
  /\ leadFree (NewTask.title p) /\ trailFree (NewTask.title p)
  /\ (exists ws1 ws2, description = ws1 ++ NewTask.description p ++ ws2
     /\ whiteSpaces ws1 /\ whiteSpaces ws2)
  /\ leadFree (NewTask.description p) /\ trailFree (NewTask.description p)
  /\ NewTask.completed p = false
  /\ NewTask.priority p = priority
  /\ NewTask.dueDate p = dueDate
  /\ NewTask.tags p = tags.
Proof.
  assert (Hslice : forall s, exists ws1 ws2,
             s = ws1 ++ trim s ++ ws2 /\ whiteSpaces ws1 /\ whiteSpaces ws2).
  { intros s. destruct (trimStart_split s) as (ws1 & E1 & H1).
    destruct (trimEnd_split (trimStart s)) as (ws2 & E2 & H2).
    exists ws1, ws2. unfold trim. now rewrite <- E2. }
  assert (Hlead : forall s, leadFree (trim s)).
  { intros s. apply trimEnd_leadFree, trimStart_leadFree. }
  assert (Htrail : forall s, trailFree (trim s)).
  { intros s. unfold trailFree, trim, trimEnd. rewrite rev_involutive.
    apply trimStart_leadFree. }
  simpl. repeat split; auto.
Qed.

(** X6. [handleSubmit] and [handleSave] dispatch nothing exactly when the
    title consists of white space only (the empty title included); every
    other title dispatches an action. *)
Theorem blank_title_rejected :
  (forall title description priority,
     dispatched (Submit title description priority) = None
     <-> whiteSpaces title)
  /\ (forall id editTitle editDescription,
     dispatched (Save id editTitle editDescription) = None
     <-> whiteSpaces editTitle).
Proof.
  split; intros; simpl; rewrite <- trim_blank.
  - destruct (trim title); simpl; split; congruence.
  - destruct (trim editTitle); simpl; split; congruence.
Qed.

(** ** Single-item actions of the reducer *)

(** X7. When the task manager holds, at the identifier, the task that the
    list has with that identifier, a save with a title that is not blank
    replaces the title and the description of that task by the trimmed
    edit fields, keeps its identifier, completion flag, priority, creation
    time, due date and tags, and leaves every other task and the three
    filter fields as they are. *)
Theorem save_overwrites_title_description uuid now m s id editTitle editDescription :
  trim editTitle <> [] ->
  (forall t, In t (TaskState.tasks s) -> Task.id t = id -> m !! id = Some t) ->
  exists a,
    dispatched (Save id editTitle editDescription) = Some a
    /\ snd (taskReducer uuid now m s a)
       = withTasks s
           (List.map (fun t => if hasId id t
                               then edited editTitle editDescription t else t)
              (TaskState.tasks s)).
Proof.
  intros Htitle Hsync. apply truthy_true in Htitle.
  eexists. split; [simpl; rewrite Htitle; reflexivity|].
  rewrite reducer_update_state.
  destruct (m !! id) as [t0|] eqn:Hm.
  - f_equal.
    apply (replaceById_as_map id (edited editTitle editDescription) t0).
    intros t Hin E. specialize (Hsync t Hin E). congruence.
  - rewrite map_fixed; [symmetry; apply withTasks_same|].
    intros t Hin. destruct (hasId id t) eqn:E; [|reflexivity].
    apply hasId_true in E. specialize (Hsync t Hin E). congruence.
Qed.

Lemma save_overwrites_title_description_witness :
  exists a,
    dispatched (Save (js "u1") (js " Draft report ") []) = Some a
    /\ List.map Task.title
         (TaskState.tasks (snd (taskReducer (js "u7") 300 (fst oneTask) (snd oneTask) a)))
       = [js "Draft report"].
Proof.
  destruct (save_overwrites_title_description (js "u7") 300 (fst oneTask)
              (snd oneTask) (js "u1") (js " Draft report ") [])
    as (a & Ha & Hs).
  - vm_compute. discriminate.
  - intros t [<-|[]] _. vm_compute. reflexivity.
  - exists a. split; [exact Ha|]. rewrite Hs. vm_compute. reflexivity.
Defined.

Lemma replaceById_twice id u ts :
  replaceById id u (replaceById id u ts) = replaceById id u ts.
Proof.
  unfold replaceById. rewrite List.map_map. apply map_ext. intros t.
  destruct (hasId id t) eqn:E; [|now rewrite E].
  now destruct (hasId id u).
Qed.

(** X8. UPDATE_TASK is idempotent: for every state, task manager contents
    and update object, a second call with the same identifier and updates
    returns the state and the task manager of the first. *)
Theorem update_idempotent uuid now uuid' now' m s id u :
  let r := taskReducer uuid now m s (UPDATE_TASK id u) in
  taskReducer uuid' now' (fst r) (snd r) (UPDATE_TASK id u) = r.
Proof.
  simpl. unfold TaskManager.updateTask.
  destruct (m !! id) as [t0|] eqn:Hm; simpl.
  - rewrite lookup_insert_eq, spread_same, insert_insert_eq.
    unfold withTasks. simpl. now rewrite replaceById_twice.
  - now rewrite Hm.
Qed.

(** X9. After DELETE_TASK no task of the list and no entry of the task
    manager has the identifier; the tasks with other identifiers stay, in
    their order; and a second DELETE_TASK with the identifier changes
    nothing. *)
Theorem delete_removes uuid now uuid' now' m s id :
  let r := taskReducer uuid now m s (DELETE_TASK id) in
  ~ In id (ids (TaskState.tasks (snd r)))
  /\ fst r !! id = None
  /\ TaskState.tasks (snd r)
     = List.filter (fun t => negb (bool_decide (Task.id t = id)))
         (TaskState.tasks s)
  /\ (forall t, In t (TaskState.tasks (snd r))
                <-> In t (TaskState.tasks s) /\ Task.id t <> id)
  /\ taskReducer uuid' now' (fst r) (snd r) (DELETE_TASK id) = r.
Proof.
  simpl. repeat split.
  - rewrite In_ids. intros (t & Hin & E). apply filter_In in Hin.
    destruct Hin as [_ Hin]. apply negb_true_iff, hasId_false in Hin. tauto.
  - apply lookup_delete_eq.
  - apply filter_In in H. tauto.
  - apply filter_In in H. destruct H as [_ H].
    now apply negb_true_iff, hasId_false in H.
  - intros [H1 H2]. apply filter_In. split; [exact H1|].
    now apply negb_true_iff, hasId_false.
  - f_equal.
    + apply delete_id, lookup_delete_eq.
    + unfold withTasks. simpl. now rewrite filter_filter_same.
Qed.

(** X10. An add followed by the delete of the new identifier gives back
    the state and the task manager, when the identifier was new to both. *)
Theorem add_delete_roundtrip uuid now uuid' now' m s payload :
  ~ In uuid (ids (TaskState.tasks s)) ->
  m !! uuid = None ->
  let r := taskReducer uuid now m s (ADD_TASK payload) in
  taskReducer uuid' now' (fst r) (snd r) (DELETE_TASK uuid) = (m, s).
Proof.
  intros Hfresh Hm. simpl. unfold TaskManager.addTask. simpl. f_equal.
  - rewrite delete_insert_eq. now apply delete_id.
  - unfold withTasks. simpl. rewrite List.filter_app. simpl.
    unfold hasId at 2. simpl. rewrite bool_decide_eq_true_2 by reflexivity.
    simpl. rewrite app_nil_r, filter_absent by exact Hfresh. now destruct s.
Qed.

Lemma add_delete_roundtrip_witness :
  taskReducer (js "u8") 400
    (fst (taskReducer (js "u2") 200 (fst oneTask) (snd oneTask)
            (ADD_TASK meetingPayload)))
    (snd (taskReducer (js "u2") 200 (fst oneTask) (snd oneTask)
            (ADD_TASK meetingPayload)))
    (DELETE_TASK (js "u2"))
  = oneTask.
Proof.
  rewrite (surjective_pairing oneTask).
  apply (add_delete_roundtrip (js "u2") 200 (js "u8") 400 (fst oneTask)
           (snd oneTask) meetingPayload).
  - vm_compute. intros [H|[]]. discriminate H.
  - vm_compute. reflexivity.
Defined.

(** ** The aggregate counts *)

Lemma filter_complement_length {A} (f : A -> bool) l :
  (length (List.filter f l) + length (List.filter (fun x => negb (f x)) l)
   = length l)%nat.
Proof.
  induction l as [|x l IH]; simpl; [reflexivity|].
  destruct (f x); simpl; lia.
Qed.

Lemma filter_and_length {A} (f g : A -> bool) l :
  (length (List.filter (fun x => f x && g x) l) <= length (List.filter g l))%nat.
Proof.
  induction l as [|x l IH]; simpl; [lia|].
  destruct (f x), (g x); simpl; lia.
Qed.

Lemma filter_filter_and {A} (f g : A -> bool) l :
  List.filter f (List.filter g l) = List.filter (fun x => g x && f x) l.
Proof.
  induction l as [|x l IH]; simpl; [reflexivity|].
  destruct (g x); simpl; [|exact IH].
  destruct (f x); simpl; now rewrite IH.
Qed.

Lemma filter_none {A} (f : A -> bool) l :
  (forall x, In x l -> f x = false) -> List.filter f l = [].
Proof.
  induction l as [|x l IH]; simpl; intros H; [reflexivity|].
  rewrite H by now left. apply IH. intros y Hy. apply H. now right.
Qed.

Lemma filter_every {A} (f : A -> bool) l :
  (forall x, In x l -> f x = true) -> List.filter f l = l.
Proof.
  induction l as [|x l IH]; simpl; intros H; [reflexivity|].
  rewrite H by now left. f_equal. apply IH. intros y Hy. apply H. now right.
Qed.

Lemma filter_same_on {A} (f g : A -> bool) l :
  (forall x, In x l -> f x = g x) -> List.filter f l = List.filter g l.
Proof.
  induction l as [|x l IH]; simpl; intros H; [reflexivity|].
  rewrite H by now left. rewrite IH; [reflexivity|].
  intros y Hy. apply H. now right.
Qed.

(** X11. The counts of every state: the total is the completed count plus
    the active count, and the high-priority count, which counts incomplete
    tasks only, is at most the active count. *)
Theorem stats_partition s :
  Stats.total (stats s)
  = (Stats.completed (stats s) + Stats.active (stats s))%nat
  /\ (Stats.highPriority (stats s) <= Stats.active (stats s))%nat.
Proof.
  unfold stats. simpl. split.
  - symmetry. apply (filter_complement_length Task.completed).
  - apply (filter_and_length
             (fun t => bool_decide (Task.priority t = high))
             (fun t => negb (Task.completed t))).
Qed.

(** X12. After CLEAR_COMPLETED the completed count is 0, the active and
    the high-priority counts are what they were, and the total is the
    former active count. *)
Theorem stats_clear_completed uuid now m s :
  stats (snd (taskReducer uuid now m s CLEAR_COMPLETED))
  = Stats.mk (Stats.active (stats s)) 0 (Stats.active (stats s))
      (Stats.highPriority (stats s)).
Proof.
  unfold stats. simpl. rewrite !filter_filter_and. f_equal.
  - rewrite filter_none; [reflexivity|].
    intros t _. now destruct (Task.completed t).
  - f_equal. apply filter_same_on. intros t _. now destruct (Task.completed t).
  - f_equal. apply filter_same_on. intros t _.
    now destruct (Task.completed t), (bool_decide (Task.priority t = high)).
Qed.

(** X13. The button that dispatches CLEAR_COMPLETED is rendered exactly
    when the action would change the state: with no completed task the
    action returns the state as it is, otherwise it returns a shorter
    list. *)
Theorem clear_button_gate uuid now m s :
  (showClearCompleted (stats s) = false
   -> snd (taskReducer uuid now m s CLEAR_COMPLETED) = s)
  /\ (showClearCompleted (stats s) = true
   -> (length (TaskState.tasks (snd (taskReducer uuid now m s CLEAR_COMPLETED)))
       < length (TaskState.tasks s))%nat).
Proof.
  unfold showClearCompleted, stats. simpl.
  pose proof (filter_complement_length (fun t => Task.completed t)
                (TaskState.tasks s)) as HL.
  split; intros H.
  - apply Nat.ltb_ge in H.
    rewrite filter_every; [apply withTasks_same|].
    intros t Ht. destruct (Task.completed t) eqn:E; [|reflexivity].
    assert (Hin : In t (List.filter (fun t => Task.completed t)
                          (TaskState.tasks s)))
      by (apply filter_In; now split).
    destruct (List.filter (fun t => Task.completed t) (TaskState.tasks s));
      [easy|].
    simpl in H. exfalso. clear - H. lia.
  - apply Nat.ltb_lt in H. lia.
Qed.

Lemma clear_button_gate_witness :
  snd (taskReducer (js "u5") 9 (fst oneTask) (snd oneTask) CLEAR_COMPLETED)
  = snd oneTask.
Proof.
  apply (clear_button_gate (js "u5") 9 (fst oneTask) (snd oneTask)).
  vm_compute. reflexivity.
Defined.

(** X14. An add raises the total by one and, according to the payload,
    either the completed or the active count by one; the high-priority
    count rises by one exactly when the payload is incomplete and of high
    priority.  With a payload of [createTask] the active count rises. *)
Theorem stats_add uuid now m s payload :
  let b (x : bool) : nat := if x then 1%nat else 0%nat in
  stats (snd (taskReducer uuid now m s (ADD_TASK payload)))
  = Stats.mk
      (S (Stats.total (stats s)))
      (Stats.completed (stats s) + b (NewTask.completed payload))
      (Stats.active (stats s) + b (negb (NewTask.completed payload)))
      (Stats.highPriority (stats s)
       + b (bool_decide (NewTask.priority payload = high)
            && negb (NewTask.completed payload))).
Proof.
  unfold stats. simpl. rewrite !List.filter_app, !length_app. simpl.
  f_equal; try lia.
  - now destruct (NewTask.completed payload).
  - now destruct (NewTask.completed payload).
  - now destruct (bool_decide (NewTask.priority payload = high)),
                 (NewTask.completed payload).
Qed.

(** The one task with an identifier, in a list without duplicates. *)
Lemma split_at_id id ts :
  NoDup (ids ts) -> In id (ids ts) ->
  exists l1 t0 l2, ts = l1 ++ t0 :: l2 /\ Task.id t0 = id
    /\ ~ In id (ids l1) /\ ~ In id (ids l2).
Proof.
  intros Hn Hin. apply In_ids in Hin. destruct Hin as (t0 & Hin & E).
  apply in_split in Hin. destruct Hin as (l1 & l2 & ->).
  exists l1, t0, l2. split; [reflexivity|]. split; [exact E|].
  unfold ids in Hn. rewrite List.map_app in Hn. simpl in Hn.
  apply NoDup_app in Hn. destruct Hn as (_ & H1 & H2).
  apply NoDup_cons in H2. destruct H2 as [H2 _]. rewrite E in H1, H2. split.
  - intros H. apply list_elem_of_In in H. apply (H1 id H). now left.
  - intros H. apply H2. now apply list_elem_of_In.
Qed.

Lemma map_at_id (f : Task.t -> Task.t) id l1 t0 l2 :
  Task.id t0 = id -> ~ In id (ids l1) -> ~ In id (ids l2) ->
  List.map (fun t => if hasId id t then f t else t) (l1 ++ t0 :: l2)
  = l1 ++ f t0 :: l2.
Proof.
  intros E H1 H2. rewrite List.map_app. simpl.
  assert (Hfix : forall l, ~ In id (ids l) ->
            List.map (fun t => if hasId id t then f t else t) l = l).
  { intros l Hl. apply map_fixed. intros t Ht.
    destruct (hasId id t) eqn:Et; [|reflexivity].
    apply hasId_true in Et. exfalso. apply Hl. apply In_ids. now exists t. }
  rewrite (Hfix l1 H1), (Hfix l2 H2).
  apply hasId_true in E. now rewrite E.
Qed.

(** X15. In a state where the identifiers are pairwise different and the
    task manager holds the listed tasks, a toggle of a listed identifier
    changes exactly one task, in place: the completion flag of that task
    is negated, and the tasks before and after it are as they were.  The
    total is unchanged and one task moves between the completed and the
    active count. *)
Theorem toggle_changes_one uuid now m s id :
  wellFormed m s ->
  In id (ids (TaskState.tasks s)) ->
  let s' := snd (taskReducer uuid now m s (TOGGLE_TASK id)) in
  exists l1 t0 l2,
    TaskState.tasks s = l1 ++ t0 :: l2
    /\ Task.id t0 = id
    /\ TaskState.tasks s' = l1 ++ flipped t0 :: l2
    /\ Stats.total (stats s') = Stats.total (stats s)
    /\ (if Task.completed t0
        then S (Stats.completed (stats s')) = Stats.completed (stats s)
             /\ Stats.active (stats s') = S (Stats.active (stats s))
        else Stats.completed (stats s') = S (Stats.completed (stats s))
             /\ S (Stats.active (stats s')) = Stats.active (stats s)).
Proof.
  intros (Hs & Hn & _) Hin.
  destruct (split_at_id id (TaskState.tasks s) Hn Hin)
    as (l1 & t0 & l2 & E & Eid & H1 & H2).
  assert (Hin0 : In t0 (TaskState.tasks s)).
  { rewrite E. apply in_or_app. right. now left. }
  assert (Hm : m !! id = Some t0) by (rewrite <- Eid; now apply Hs).
  assert (Hall : forall t, In t (TaskState.tasks s) -> Task.id t = id -> t = t0).
  { intros t Ht Et. apply Hs in Ht. rewrite Et in Ht. congruence. }
  rewrite (toggle_once uuid now m s id t0 Hin Hall Hm). cbn [snd].
  exists l1, t0, l2. split; [exact E|]. split; [exact Eid|].
  assert (E' : List.map (fun t => if hasId id t then flipped t else t)
                 (TaskState.tasks s) = l1 ++ flipped t0 :: l2).
  { rewrite E. now apply map_at_id. }
  unfold stats. cbn [TaskState.tasks withTasks Stats.total Stats.completed
                     Stats.active]. rewrite E', E.
  split; [reflexivity|]. rewrite !List.filter_app, !length_app. simpl.
  split; [reflexivity|].
  destruct (Task.completed t0); simpl; rewrite ?length_app; simpl; lia.
Qed.

Lemma oneTask_wellFormed : wellFormed (fst oneTask) (snd oneTask).
Proof. apply reachable_wellFormed, oneTask_reachable. Qed.

Lemma toggle_changes_one_witness :
  exists l1 t0 l2,
    TaskState.tasks (snd oneTask) = l1 ++ t0 :: l2
    /\ TaskState.tasks
         (snd (taskReducer (js "u6") 50 (fst oneTask) (snd oneTask)
                 (TOGGLE_TASK (js "u1"))))
       = l1 ++ flipped t0 :: l2.
Proof.
  destruct (toggle_changes_one (js "u6") 50 (fst oneTask) (snd oneTask)
              (js "u1") oneTask_wellFormed)
    as (l1 & t0 & l2 & H1 & _ & H2 & _).
  - vm_compute. now left.
  - now exists l1, t0, l2.
Defined.

(** X16. In a list whose identifiers are pairwise different, a delete of
    a listed identifier removes exactly one task: the tasks before and
    after it stay in place and the total drops by one. *)
Theorem delete_removes_one uuid now m s id :
  NoDup (ids (TaskState.tasks s)) ->
  In id (ids (TaskState.tasks s)) ->
  let s' := snd (taskReducer uuid now m s (DELETE_TASK id)) in
  exists l1 t0 l2,
    TaskState.tasks s = l1 ++ t0 :: l2
    /\ Task.id t0 = id
    /\ TaskState.tasks s' = l1 ++ l2
    /\ S (Stats.total (stats s')) = Stats.total (stats s).
Proof.
  intros Hn Hin.
  destruct (split_at_id id (TaskState.tasks s) Hn Hin)
    as (l1 & t0 & l2 & E & Eid & H1 & H2).
  exists l1, t0, l2. split; [exact E|]. split; [exact Eid|].
  assert (E' : TaskState.tasks (snd (taskReducer uuid now m s (DELETE_TASK id)))
               = l1 ++ l2).
  { simpl. rewrite E, List.filter_app. simpl.
    apply hasId_true in Eid. rewrite Eid. simpl.
    now rewrite !filter_absent by assumption. }
  split; [exact E'|]. unfold stats. cbn [Stats.total]. rewrite E', E.
  rewrite !length_app. simpl. lia.
Qed.

Lemma delete_removes_one_witness :
  exists l1 t0 l2,
    TaskState.tasks (snd oneTask) = l1 ++ t0 :: l2
    /\ TaskState.tasks
         (snd (taskReducer (js "u6") 50 (fst oneTask) (snd oneTask)
                 (DELETE_TASK (js "u1"))))
       = l1 ++ l2.
Proof.
  destruct (delete_removes_one (js "u6") 50 (fst oneTask) (snd oneTask) (js "u1"))
    as (l1 & t0 & l2 & H1 & _ & H2 & _).
  - vm_compute. repeat constructor. intros H. inversion H.
  - vm_compute. now left.
  - now exists l1, t0, l2.
Defined.

(** ** More on the view projection *)

(** X17. [compareTasks] is a consistent comparator, which
    [Array.prototype.sort] needs for its result to be defined: swapping
    the arguments negates the result, the result is 0 exactly for tasks of
    the same priority and creation time, and the order is transitive. *)
Theorem compareTasks_consistent a b c :
  compareTasks a b = - compareTasks b a
  /\ (compareTasks a b = 0 <-> sortKey a = sortKey b)
  /\ (compareTasks a b = 0 <-> sameKey a b = true)
  /\ (compareTasks a b < 0 -> compareTasks b c < 0 -> compareTasks a c < 0)
  /\ (compareTasks a b = 0 -> compareTasks a c = compareTasks b c).
Proof.
  assert (Hk : sortKey a = sortKey b <->
               rank a = rank b /\ Task.createdAt a = Task.createdAt b).
  { unfold sortKey. split; [intros [= -> ->]; now split | intros [-> ->]; reflexivity]. }
  rewrite Hk. unfold sameKey. rewrite andb_true_iff, !Z.eqb_eq.
  unfold compareTasks, rank.
  set (ra := TaskManager.priorityOrder (Task.priority a)).
  set (rb := TaskManager.priorityOrder (Task.priority b)).
  set (rc := TaskManager.priorityOrder (Task.priority c)).
  destruct (rb - ra =? 0) eqn:E1, (ra - rb =? 0) eqn:E2, (rc - rb =? 0) eqn:E3,
           (rc - ra =? 0) eqn:E4;
    rewrite ?Z.eqb_eq, ?Z.eqb_neq in *; simpl; lia.
Qed.

Lemma sortBy_fixed {A} (comparefn : A -> A -> Z) l :
  StronglySorted (fun a b => comparefn a b <= 0) l -> sortBy comparefn l = l.
Proof.
  induction 1 as [|x l Hl IH Hx]; simpl; [reflexivity|].
  rewrite IH. destruct l as [|y r]; [reflexivity|]. simpl.
  apply Forall_inv in Hx. apply Z.leb_le in Hx. now rewrite Hx.
Qed.

Section MoreViewFacts.
Variable toLowerCase : jsstring -> jsstring.

(** X18. Filtering is idempotent: [filterTasks] applied to its own output
    with the same three filters returns that output. *)
Theorem filterTasks_idempotent tasks f q p :
  filterTasks toLowerCase (filterTasks toLowerCase tasks f q p) f q p
  = filterTasks toLowerCase tasks f q p.
Proof.
  unfold filterTasks at 1.
  rewrite filter_every.
  - apply sortBy_fixed. unfold filterTasks. apply sortBy_sorted.
    + apply compareTasks_total.
    + apply compareTasks_trans.
  - intros t Ht. unfold filterTasks in Ht.
    apply (Permutation_in t (sortBy_perm compareTasks _)) in Ht.
    apply filter_In in Ht. tauto.
Qed.

Lemma keeps_by_status f q p t :
  keeps toLowerCase f q p t
  = keeps toLowerCase all q p t
    && match f with
       | all => true
       | active => negb (Task.completed t)
       | completed => Task.completed t
       end.
Proof.
  unfold keeps.
  destruct f, (Task.completed t); simpl;
    repeat match goal with |- context [if ?b then _ else _] => destruct b end;
    reflexivity.
Qed.

Lemma filter_split_perm {A} (f c : A -> bool) l :
  Permutation
    (List.filter (fun x => f x && negb (c x)) l
     ++ List.filter (fun x => f x && c x) l)
    (List.filter f l).
Proof.
  induction l as [|x l IH]; simpl; [reflexivity|].
  destruct (f x), (c x); simpl.
  - rewrite <- Permutation_middle. now apply perm_skip.
  - now apply perm_skip.
  - exact IH.
  - exact IH.
Qed.

(** X19. For a given search text and priority filter, the tasks shown
    under the status filter active and those shown under completed are,
    together, the tasks shown under all: no task is in both and none is
    lost. *)
Theorem status_filters_partition tasks q p :
  Permutation
    (filterTasks toLowerCase tasks active q p
     ++ filterTasks toLowerCase tasks completed q p)
    (filterTasks toLowerCase tasks all q p)
  /\ (forall t, In t (filterTasks toLowerCase tasks active q p) ->
                ~ In t (filterTasks toLowerCase tasks completed q p)).
Proof.
  split.
  - unfold filterTasks. rewrite !(sortBy_perm compareTasks).
    rewrite (filter_same_on (keeps toLowerCase active q p)
               (fun t => keeps toLowerCase all q p t && negb (Task.completed t)))
      by (intros t _; apply keeps_by_status).
    rewrite (filter_same_on (keeps toLowerCase completed q p)
               (fun t => keeps toLowerCase all q p t && Task.completed t))
      by (intros t _; apply keeps_by_status).
    apply filter_split_perm.
  - intros t H1 H2. unfold filterTasks in H1, H2.
    apply (Permutation_in t (sortBy_perm compareTasks _)) in H1, H2.
    apply filter_In in H1, H2. destruct H1 as [_ H1], H2 as [_ H2].
    rewrite keeps_by_status in H1, H2.
    apply andb_true_iff in H1, H2. destruct H1 as [_ H1], H2 as [_ H2].
    destruct (Task.completed t); discriminate.
Qed.

(** X20. With an empty search text and the priority filter all, the view
    agrees with the counts: under all it is a rearrangement of the whole
    list, and under active and completed its length is the active and the
    completed count. *)
Theorem view_matches_stats s :
  Permutation
    (filterTasks toLowerCase (TaskState.tasks s) all [] anyPriority)
    (TaskState.tasks s)
  /\ length (filterTasks toLowerCase (TaskState.tasks s) all [] anyPriority)
     = Stats.total (stats s)
  /\ length (filterTasks toLowerCase (TaskState.tasks s) active [] anyPriority)
     = Stats.active (stats s)
  /\ length (filterTasks toLowerCase (TaskState.tasks s) completed [] anyPriority)
     = Stats.completed (stats s).
Proof.
  assert (Hall : Permutation
            (filterTasks toLowerCase (TaskState.tasks s) all [] anyPriority)
            (TaskState.tasks s)).
  { unfold filterTasks. rewrite (sortBy_perm compareTasks).
    now rewrite filter_every. }
  split; [exact Hall|]. split; [now rewrite Hall|].
  unfold filterTasks, stats. cbn [Stats.active Stats.completed].
  split; rewrite (Permutation_length (sortBy_perm compareTasks _));
    f_equal; apply filter_same_on; intros t _; unfold keeps; simpl;
    now destruct (Task.completed t).
Qed.

(** X21. What the task list shows: the notice that there are no tasks yet
    exactly when the list of the state is empty; the notice that no task
    matches exactly when the list is not empty and every task fails the
    filters; otherwise the output of [filterTasks], which is then not
    empty.  With the initial filters the second notice never shows. *)
Theorem taskListView_cases s :
  (taskListView toLowerCase s = NoTasksYet <-> TaskState.tasks s = [])
  /\ (taskListView toLowerCase s = NoTasksMatch <->
      TaskState.tasks s <> []
      /\ forall t, In t (TaskState.tasks s) ->
           keeps toLowerCase (TaskState.filter s) (TaskState.searchQuery s)
             (TaskState.selectedPriority s) t = false)
  /\ (forall l, taskListView toLowerCase s = Items l ->
        l = filteredTasks toLowerCase s /\ l <> [])
  /\ (TaskState.filter s = all -> TaskState.searchQuery s = [] ->
      TaskState.selectedPriority s = anyPriority ->
      taskListView toLowerCase s <> NoTasksMatch).
Proof.
  assert (Hempty : filteredTasks toLowerCase s = [] <->
            forall t, In t (TaskState.tasks s) ->
              keeps toLowerCase (TaskState.filter s) (TaskState.searchQuery s)
                (TaskState.selectedPriority s) t = false).
  { unfold filteredTasks, filterTasks. split.
    - intros E t Ht.
      destruct (keeps toLowerCase _ _ _ t) eqn:Ek; [|reflexivity].
      assert (Hin : In t (sortBy compareTasks
                (List.filter (keeps toLowerCase (TaskState.filter s)
                   (TaskState.searchQuery s) (TaskState.selectedPriority s))
                   (TaskState.tasks s)))).
      { apply (Permutation_in t (Permutation_sym (sortBy_perm compareTasks _))).
        apply filter_In. now split. }
      rewrite E in Hin. destruct Hin.
    - intros H. now rewrite filter_none. }
  assert (Hnil : TaskState.tasks s = [] -> filteredTasks toLowerCase s = []).
  { intros E. unfold filteredTasks. now rewrite E. }
  unfold taskListView.
  destruct (filteredTasks toLowerCase s) as [|t l] eqn:Ef.
  - assert (Hnone := proj1 Hempty eq_refl).
    destruct (TaskState.tasks s) as [|t0 ts] eqn:Et.
    + repeat split; try congruence; try discriminate.
      intros [H _]. congruence.
    + repeat split; try congruence; try discriminate.
      * exact Hnone.
      * intros Hf Hq Hp _. specialize (Hnone t0 (or_introl eq_refl)).
        rewrite Hf, Hq, Hp in Hnone. unfold keeps in Hnone. simpl in Hnone.
        discriminate.
  - repeat split; try congruence; try discriminate.
    + intros E. apply Hnil in E. discriminate E.
    + intros [_ H]. apply Hempty in H. discriminate.
Qed.
End MoreViewFacts.

Lemma filter_perm {A} (f : A -> bool) l l' :
  Permutation l l' -> Permutation (List.filter f l) (List.filter f l').
Proof.
  induction 1 as [|x l l' Hp IH|x y l|l l' l'' H1 IH1 H2 IH2]; simpl.
  - reflexivity.
  - destruct (f x); [now apply perm_skip | exact IH].
  - destruct (f x), (f y); try reflexivity. apply perm_swap.
  - now transitivity (List.filter f l').
Qed.

Lemma NoDup_map_filter {A B} (g : A -> B) (f : A -> bool) l :
  NoDup (List.map g l) -> NoDup (List.map g (List.filter f l)).
Proof.
  induction l as [|x l IH]; simpl; intros H; [constructor|].
  apply NoDup_cons in H. destruct H as [Hx Hl].
  destruct (f x); simpl; [|now apply IH].
  apply NoDup_cons. split; [|now apply IH].
  intros Hin. apply Hx. apply list_elem_of_In. apply list_elem_of_In in Hin.
  apply in_map_iff in Hin. destruct Hin as (y & E & Hy).
  apply filter_In in Hy. apply in_map_iff. exists y. tauto.
Qed.

Lemma sameClass_sortKey a b :
  sameClass compareTasks a b = true <-> sortKey a = sortKey b.
Proof.
  unfold sameClass. rewrite andb_true_iff, !Z.leb_le, !compareTasks_le.
  unfold precedes, sortKey. split.
  - intros [H1 H2]. f_equal; lia.
  - intros [= -> ->]. lia.
Qed.

Lemma class_at_most_one x l :
  NoDup (List.map sortKey l) ->
  (length (List.filter (sameClass compareTasks x) l) <= 1)%nat.
Proof.
  induction l as [|y r IH]; simpl; intros H; [lia|].
  apply NoDup_cons in H. destruct H as [Hy Hr].
  destruct (sameClass compareTasks x y) eqn:E; [|now apply IH].
  rewrite filter_none; [simpl; lia|].
  intros z Hz. destruct (sameClass compareTasks x z) eqn:Ez; [|reflexivity].
  apply sameClass_sortKey in E, Ez. exfalso. apply Hy.
  apply list_elem_of_In, in_map_iff. exists z. split; [congruence | exact Hz].
Qed.

Lemma perm_short_eq {A} (l l' : list A) :
  (length l <= 1)%nat -> Permutation l l' -> l = l'.
Proof.
  destruct l as [|a [|b r]]; simpl; intros Hlen Hp.
  - apply Permutation_nil in Hp. now subst.
  - apply Permutation_length_1_inv in Hp. now subst.
  - lia.
Qed.

(** X22. When no two tasks have both the same priority and the same
    creation time, the output of [filterTasks] does not depend on the
    order of the task list: two lists with the same tasks give the same
    output. *)
Theorem filterTasks_order_independent toLowerCase tasks tasks' f q p :
  NoDup (List.map sortKey tasks) ->
  Permutation tasks tasks' ->
  filterTasks toLowerCase tasks f q p = filterTasks toLowerCase tasks' f q p.
Proof.
  intros Hn Hp. unfold filterTasks.
  set (l := List.filter (keeps toLowerCase f q p) tasks).
  set (l' := List.filter (keeps toLowerCase f q p) tasks').
  assert (Hll : Permutation l l') by now apply filter_perm.
  assert (Hs : Permutation (sortBy compareTasks l) (sortBy compareTasks l')).
  { now rewrite !(sortBy_perm compareTasks). }
  apply (sorted_stable_unique compareTasks compareTasks_total).
  - exact Hs.
  - apply sortBy_sorted; [apply compareTasks_total | apply compareTasks_trans].
  - apply sortBy_sorted; [apply compareTasks_total | apply compareTasks_trans].
  - intros x. apply perm_short_eq; [|now apply filter_perm].
    apply class_at_most_one.
    assert (Hk : Permutation (List.map sortKey (sortBy compareTasks l))
                   (List.map sortKey l))
      by apply Permutation_map, sortBy_perm.
    rewrite Hk. now apply NoDup_map_filter.
Qed.

Lemma filterTasks_order_independent_witness :
  filterTasks asciiLower [taskLow; taskHigh; taskMedium] all [] anyPriority
  = filterTasks asciiLower [taskHigh; taskMedium; taskLow] all [] anyPriority.
Proof.
  apply (filterTasks_order_independent asciiLower
           [taskLow; taskHigh; taskMedium] [taskHigh; taskMedium; taskLow]).
  - apply (bool_decide_unpack _). vm_compute. exact I.
  - apply (Permutation_cons_append [taskHigh; taskMedium] taskLow).
Defined.

(** ** What the task manager holds in the states the application reaches *)

Lemma toggledFlag_absent id ts :
  In id (ids ts) \/ toggledFlag id ts = true.
Proof.
  unfold toggledFlag. destruct (List.find (hasId id) ts) as [t|] eqn:E.
  - left. apply find_some in E. destruct E as [Hin Hid].
    apply hasId_true in Hid. apply In_ids. now exists t.
  - now right.
Qed.

Lemma update_staleCompleted uuid now m s id u :
  wellFormed m s -> staleCompleted m s -> keepsIdentity u ->
  (forall t, titled t -> titled (spread t u)) ->
  (In id (ids (TaskState.tasks s))
   \/ forall t, Task.completed t = true -> Task.completed (spread t u) = true) ->
  staleCompleted (fst (taskReducer uuid now m s (UPDATE_TASK id u)))
                 (snd (taskReducer uuid now m s (UPDATE_TASK id u))).
Proof.
  intros Hwf H Hu Ht Hc k t.
  destruct (update_wellFormed uuid now m s id u Hwf Hu Ht) as [_ Hi].
  rewrite ids_identities, Hi, <- ids_identities, reducer_update_map.
  destruct (m !! id) as [t0|] eqn:Hm; [|apply H].
  destruct (decide (id = k)) as [<-|Hne].
  - rewrite lookup_insert_eq. intros [= <-].
    destruct (H id t0 Hm) as [Eid Hor].
    destruct (spread_identity t0 u Hu) as [E _]. split; [congruence|].
    destruct Hor as [Hin|Hdone]; [now left|].
    destruct Hc as [Hin|Hkeep]; [now left | right; now apply Hkeep].
  - rewrite lookup_insert_ne by exact Hne. apply H.
Qed.

Lemma step_staleCompleted uuid now m s e a :
  wellFormed m s ->
  staleCompleted m s ->
  dispatched e = Some a ->
  staleCompleted (fst (taskReducer uuid now m s a))
                 (snd (taskReducer uuid now m s a)).
Proof.
  intros Hwf H Hd. pose proof Hwf as (Hs & _ & _).
  destruct e as [title description priority | id editTitle editDescription
                | id | id | f | q | p | ]; simpl in Hd.
  - destruct (truthy (trim title)); [|discriminate]. injection Hd as <-.
    intros k t. simpl. unfold TaskManager.addTask, ids. simpl.
    rewrite List.map_app, in_app_iff. simpl.
    destruct (decide (uuid = k)) as [<-|Hne].
    + rewrite lookup_insert_eq. intros [= <-]. simpl. tauto.
    + rewrite lookup_insert_ne by exact Hne. intros Hk.
      destruct (H k t Hk) as [Eid Hor]. unfold ids in Hor. tauto.
  - destruct (truthy (trim editTitle)) eqn:Etitle; [|discriminate].
    injection Hd as <-. apply truthy_true in Etitle.
    apply update_staleCompleted; [exact Hwf | exact H | now split | |].
    + intros t _. unfold titled. simpl. now rewrite trim_idem.
    + right. intros t Ht. exact Ht.
  - injection Hd as <-. rewrite reducer_toggle_is_update.
    apply update_staleCompleted; [exact Hwf | exact H | now split | |].
    + intros t Ht. exact Ht.
    + destruct (toggledFlag_absent id (TaskState.tasks s)) as [Hin|Hflag];
        [now left | right].
      intros t _. unfold toggleUpdates, spread. simpl. exact Hflag.
  - injection Hd as <-. intros k t. simpl.
    destruct (decide (id = k)) as [<-|Hne].
    + rewrite lookup_delete_eq. discriminate.
    + rewrite lookup_delete_ne by exact Hne. intros Hk.
      destruct (H k t Hk) as [Eid Hor]. split; [exact Eid|].
      destruct Hor as [Hin|Hdone]; [left | now right].
      apply In_ids in Hin. destruct Hin as (t' & Hin & E).
      apply In_ids. exists t'. split; [|exact E].
      apply filter_In. split; [exact Hin|].
      apply negb_true_iff, hasId_false. congruence.
  - injection Hd as <-. exact H.
  - injection Hd as <-. exact H.
  - injection Hd as <-. exact H.
  - injection Hd as <-. intros k t Hk. simpl in Hk. simpl.
    destruct (H k t Hk) as [Eid Hor]. split; [exact Eid|].
    destruct (Task.completed t) eqn:Ec; [now right | left].
    destruct Hor as [Hin|Hdone]; [|discriminate].
    apply In_ids in Hin. destruct Hin as (t' & Hin & E).
    assert (t' = t).
    { apply Hs in Hin. rewrite E in Hin. congruence. }
    subst t'. apply In_ids. exists t. split; [|exact E].
    apply filter_In. split; [exact Hin | now rewrite Ec].
Qed.

(** X23. When the reducer is called once for every action that a user
    event dispatches, and every generated identifier is new to the list,
    then in every state reached from the initial one the task manager
    holds every task of the list under its identifier, every entry it
    holds is stored under the identifier of its task, and an entry whose
    identifier is not in the list is a completed task: what
    CLEAR_COMPLETED leaves behind in the map is completed tasks only. *)
Theorem reachable_map_contents m s :
  reachable m s ->
  (forall t, In t (TaskState.tasks s) -> m !! Task.id t = Some t)
  /\ (forall k t, m !! k = Some t ->
        Task.id t = k
        /\ (In k (ids (TaskState.tasks s)) \/ Task.completed t = true)).
Proof.
  intros Hr. split.
  - apply reachable_wellFormed in Hr. now destruct Hr as [Hs _].
  - change (staleCompleted m s).
    induction Hr as [|m s e a uuid now Hr IH Hd Hfresh].
    + intros k t Hk. unfold initialMap in Hk. rewrite lookup_empty in Hk.
      discriminate.
    + apply (step_staleCompleted uuid now m s e a); try assumption.
      now apply reachable_wellFormed.
Qed.

Lemma reachable_map_contents_witness :
  fst oneTask !! js "u1"
  = Some (Task.mk (js "u1") (js "Write Report") [] false high 100 None []).
Proof.
  apply (proj1 (reachable_map_contents (fst oneTask) (snd oneTask)
                  oneTask_reachable)
           (Task.mk (js "u1") (js "Write Report") [] false high 100 None [])).
  vm_compute. now left.
Defined.

(** ** What each action leaves alone *)

Lemma filter_shorter {A} (f : A -> bool) l :
  (length (List.filter f l) <= length l)%nat.
Proof. pose proof (filter_complement_length f l). lia. Qed.

(** X24. For every state, task manager and action: the status filter, the
    search text and the priority filter are changed by their own setter
    only; the list grows, by one task, on an add only; it can shrink on a
    delete and on CLEAR_COMPLETED only; and an update, a toggle and the
    filter actions keep its length. *)
Theorem reducer_frame uuid now m s a :
  let s' := snd (taskReducer uuid now m s a) in
  match a with
  | SET_FILTER _ => True
  | _ => TaskState.filter s' = TaskState.filter s
  end
  /\ match a with
     | SET_SEARCH _ => True
     | _ => TaskState.searchQuery s' = TaskState.searchQuery s
     end
  /\ match a with
     | SET_PRIORITY_FILTER _ => True
     | _ => TaskState.selectedPriority s' = TaskState.selectedPriority s
     end
  /\ match a with
     | ADD_TASK _ =>
         length (TaskState.tasks s') = S (length (TaskState.tasks s))
     | DELETE_TASK _ | CLEAR_COMPLETED =>
         (length (TaskState.tasks s') <= length (TaskState.tasks s))%nat
     | _ => length (TaskState.tasks s') = length (TaskState.tasks s)
     end.
Proof.
  assert (HU : forall id u,
            let s' := snd (taskReducer uuid now m s (UPDATE_TASK id u)) in
            TaskState.filter s' = TaskState.filter s
            /\ TaskState.searchQuery s' = TaskState.searchQuery s
            /\ TaskState.selectedPriority s' = TaskState.selectedPriority s
            /\ length (TaskState.tasks s') = length (TaskState.tasks s)).
  { intros id u. cbv zeta. rewrite reducer_update_state.
    destruct (m !! id); [|now repeat split].
    simpl. unfold replaceById. now rewrite length_map. }
  destruct a as [payload | id u | id | id | f | q | p | ]; cbv zeta.
  - simpl. repeat split. rewrite length_app. simpl. lia.
  - apply HU.
  - simpl. repeat split. apply filter_shorter.
  - rewrite reducer_toggle_is_update. apply HU.
  - simpl. now repeat split.
  - simpl. now repeat split.
  - simpl. now repeat split.
  - simpl. repeat split. apply filter_shorter.
Qed.

(** ** A second call with the same state and action *)

